(** * file-structure-visualizer: the tree builder and the search engine

    A shallow embedding of [TreeVisualizer] from [src/visualizer.py]:
    [should_exclude], [get_tree_lines], [visualize], [search_files] with its
    inner [search_recursive], and [_get_size].

    Modelling choices, fixed here once:
    - a string is a [string] of bytes; the box-drawing connectors are their
      UTF-8 bytes.  [str.lower] is modelled on ASCII letters only, so the
      development speaks about names and patterns whose letters are ASCII;
    - a Python [int] is a [Z] ([depth], [max_depth]) and a file size is an [N];
    - the file system below the scan root is a finite tree of [entry]; the
      order of a listing is the order in which [iterdir] yields it;
    - a raised exception is [None] in an [option]. *)

From Stdlib Require Import String Ascii List NArith ZArith Lia Bool.
From Stdlib Require Import Permutation DecimalString Sorted.
Import ListNotations.

Set Warnings "-register-all".

Open Scope string_scope.
Open Scope list_scope.

(** String concatenation; [++] is kept for lists. *)
Infix "+++" := String.append (right associativity, at level 60).

(** ** Strings as Python uses them *)

Module Str.

Definition lower_char (c : ascii) : ascii :=
  let n := N_of_ascii c in
  if ((65 <=? n) && (n <=? 90))%N then ascii_of_N (n + 32) else c.

(** [s.lower()] *)
Fixpoint lower (s : string) : string :=
  match s with
  | EmptyString => EmptyString
  | String c s' => String (lower_char c) (lower s')
  end.

(** [s.startswith(p)] *)
Definition startswith (s p : string) : bool := String.prefix p s.

(** [p in s]: [p] occurs in [s] as a contiguous substring. *)
Fixpoint contains (p s : string) : bool :=
  String.prefix p s ||
  match s with
  | EmptyString => false
  | String _ s' => contains p s'
  end.

(** [c in s] for a one-character [c]. *)
Fixpoint has_char (c : ascii) (s : string) : bool :=
  match s with
  | EmptyString => false
  | String d s' => Ascii.eqb c d || has_char c s'
  end.

(** [s.replace(old, new)] for a one-character [old], the only form the
    program uses. *)
Fixpoint replace (old : ascii) (new : string) (s : string) : string :=
  match s with
  | EmptyString => EmptyString
  | String c s' =>
      if Ascii.eqb c old then new +++ replace old new s'
      else String c (replace old new s')
  end.

(** [sep.join(parts)] *)
Definition join (sep : string) (parts : list string) : string :=
  String.concat sep parts.

End Str.

(** ** [sorted(xs, key=...)]: a stable sort on string keys *)

Section Sorted.
Context {A : Type}.
Variable key : A -> string.

(** [x] goes in front of the first element whose key is not smaller, so
    elements with equal keys keep the order they came in, as Python's
    [sorted] guarantees. *)
Fixpoint insert_by (x : A) (l : list A) : list A :=
  match l with
  | [] => [x]
  | y :: l' =>
      if String.leb (key x) (key y) then x :: y :: l'
      else y :: insert_by x l'
  end.

Fixpoint sorted (l : list A) : list A :=
  match l with
  | [] => []
  | x :: l' => insert_by x (sorted l')
  end.
End Sorted.

(** ** The configuration object *)

Record TreeVisualizer : Type := {
  show_hidden : bool;
  max_depth : option Z;
  exclude_patterns : list string
}.

Definition default_exclude_patterns : list string :=
  ["__pycache__"; ".git"; ".DS_Store"; ".pytest_cache"; "node_modules"].

(** [__init__]: [exclude_patterns or [...]] takes the defaults for [None] and
    for an empty list alike. *)
Definition init (show_hidden : bool) (max_depth : option Z)
    (exclude_patterns : option (list string)) : TreeVisualizer :=
  {| show_hidden := show_hidden;
     max_depth := max_depth;
     exclude_patterns :=
       match exclude_patterns with
       | None | Some [] => default_exclude_patterns
       | Some l => l
       end |}.

(** [TreeVisualizer()] *)
Definition default_visualizer : TreeVisualizer := init false None None.

Definition should_exclude (self : TreeVisualizer) (name : string) : bool :=
  if negb (show_hidden self) && Str.startswith name "." then true
  else existsb (fun pattern => Str.contains pattern name) (exclude_patterns self).

(** [self.max_depth is not None and depth > self.max_depth] *)
Definition too_deep (self : TreeVisualizer) (depth : Z) : bool :=
  match max_depth self with
  | Some m => (depth >? m)%Z
  | None => false
  end.

(** ** The file system under the scan root *)

(** What a [Path] object of the walk answers: its [name], [is_dir()],
    [is_file()], [iterdir()], and the two [stat()] fields the search reads.
    [Special] is an entry for which both [is_dir()] and [is_file()] are false
    (a dangling symbolic link, a socket, a device).  A directory whose
    [listing] is [None] is one on which [iterdir()] raises [PermissionError]
    or [OSError].  [mtime] is the text [strftime] gives for the local time of
    [st_mtime], [None] when [stat()] raises. *)
Inductive entry : Type :=
| File (name : string) (st_size : N) (mtime : option string)
| Dir (name : string) (mtime : option string) (listing : option (list entry))
| Special (name : string) (mtime : option string).

Definition name (e : entry) : string :=
  match e with
  | File n _ _ | Dir n _ _ | Special n _ => n
  end.

Definition is_dir (e : entry) : bool :=
  match e with Dir _ _ _ => true | _ => false end.

Definition is_file (e : entry) : bool :=
  match e with File _ _ _ => true | _ => false end.

(** [list(p.iterdir())]; on anything but a directory [iterdir] raises
    [NotADirectoryError], an [OSError]. *)
Definition iterdir (e : entry) : option (list entry) :=
  match e with
  | Dir _ _ l => l
  | _ => None
  end.

Definition stat_mtime (e : entry) : option string :=
  match e with
  | File _ _ m | Dir _ m _ | Special _ m => m
  end.

(** A path is the list of its components below the file-system root [/]. *)
Definition Path : Type := list string.

Module PathOps.

(** [str(p)] of an absolute POSIX path. *)
Definition str (p : Path) : string := "/" +++ Str.join "/" p.

(** [str(p)] of a relative path; the empty one prints as a dot. *)
Definition str_rel (p : Path) : string :=
  match p with
  | [] => "."
  | _ => Str.join "/" p
  end.

(** [p.name]: the last component, empty for [/]. *)
Definition name (p : Path) : string := last p "".

(** [p / child] *)
Definition child (p : Path) (n : string) : Path := p ++ [n].

Definition eqb (p q : Path) : bool :=
  if list_eq_dec string_dec p q then true else false.

(** [p.relative_to(base)]: [ValueError] unless [base] is a prefix. *)
Fixpoint relative_to (p base : Path) {struct base} : option Path :=
  match base, p with
  | [], _ => Some p
  | b :: base', c :: p' =>
      if String.eqb b c then relative_to p' base' else None
  | _ :: _, [] => None
  end.

End PathOps.

(** ** Tree Builder *)

Definition lower_name (e : entry) : string := Str.lower (name e).

(** One rendered line together with what it renders: the path of the entry
    below the scan root and the entry itself, or nothing for the
    [[Permission Denied]] placeholder.  Only [row_line] exists in the
    program; the rest is ghost data that lets statements speak of entries. *)
Record row : Type := {
  row_line : string;
  row_path : list string;
  row_entry : option entry
}.

(** The body of the [for i, item in enumerate(sorted_items)] loop, open in the
    recursive call [rec] and in the item type, [n] being
    [len(sorted_items)]. *)
Section TreeLoop.
Context {A : Type}.
Variable item_entry : A -> entry.
Variable rec : A -> list string -> string -> bool -> Z -> list row.
Variable here : list string.
Variable prefix : string.
Variable is_last : bool.
Variable depth : Z.
Variable n : nat.

Fixpoint tree_loop (i : nat) (sorted_items : list A) : list row :=
  match sorted_items with
  | [] => []
  | item :: rest =>
      let is_last_item := Nat.eqb i (n - 1) in
      let connector :=
        if is_last then (if is_last_item then "└── " else "├── ")
        else (if is_last_item then "├── " else "├── ") in
      let next_prefix :=
        if is_last then prefix +++ "    " else prefix +++ "│   " in
      let p := here ++ [name (item_entry item)] in
      {| row_line := prefix +++ connector +++ name (item_entry item);
         row_path := p;
         row_entry := Some (item_entry item) |}
      :: (if is_dir (item_entry item)
          then rec item p next_prefix is_last_item (depth + 1)%Z
          else [])
      ++ tree_loop (S i) rest
  end.
End TreeLoop.

Definition walker : Type := list string -> string -> bool -> Z -> list row.

(** Everything of [get_tree_lines] after the listing succeeded. *)
Definition tree_body {A : Type} (self : TreeVisualizer)
    (item_entry : A -> entry) (rec : A -> walker)
    (here : list string) (prefix : string) (is_last : bool) (depth : Z)
    (items : list A) : list row :=
  let items :=
    filter (fun item => negb (should_exclude self (name (item_entry item))))
           items in
  let dirs :=
    sorted (fun x => lower_name (item_entry x))
           (filter (fun item => is_dir (item_entry item)) items) in
  let files :=
    sorted (fun x => lower_name (item_entry x))
           (filter (fun item => is_file (item_entry item)) items) in
  let sorted_items := dirs ++ files in
  tree_loop item_entry rec here prefix is_last depth (length sorted_items)
            0 sorted_items.

(** [get_tree_lines], each line with its ghost data.  The recursive call is
    made on an element of the sorted, filtered listing; to keep the
    recursion structural every child is first paired with its own walk, and
    [tree_rows_eq] below gives back the equation that reads like the
    source. *)
Fixpoint tree_rows (self : TreeVisualizer) (root_dir : entry)
    (here : list string) (prefix : string) (is_last : bool) (depth : Z)
    {struct root_dir} : list row :=
  if too_deep self depth then []
  else
    match root_dir with
    | Dir _ _ (Some items) =>
        tree_body self fst snd here prefix is_last depth
          ((fix pair_up (l : list entry) : list (entry * walker) :=
              match l with
              | [] => []
              | e :: l' => (e, tree_rows self e) :: pair_up l'
              end) items)
    | _ =>
        [{| row_line := prefix +++ "└── [Permission Denied]";
            row_path := here;
            row_entry := None |}]
    end.

Definition get_tree_lines (self : TreeVisualizer) (root_dir : entry)
    (prefix : string) (is_last : bool) (depth : Z) : list string :=
  map row_line (tree_rows self root_dir [] prefix is_last depth).

(** [visualize]: the root line, then the body from depth 0. *)
Definition visualize_lines (self : TreeVisualizer) (root_path : Path)
    (root : entry) : list string :=
  let root_name :=
    if String.eqb (PathOps.name root_path) "" then PathOps.str root_path
    else PathOps.name root_path in
  (root_name +++ "/") :: get_tree_lines self root "" true 0.

Definition newline : string := String (ascii_of_nat 10) EmptyString.

Definition visualize (self : TreeVisualizer) (root_path : Path)
    (root : entry) : string :=
  Str.join newline (visualize_lines self root_path root).

(** The scenario of the specification: [/proj] with [.git/], [src/main.py]
    and [README.md]. *)
Definition proj : entry :=
  Dir "proj" None
    (Some [ Dir ".git" None (Some []);
            Dir "src" None (Some [File "main.py" 0 None]);
            File "README.md" 0 None ]).

(** ** Search Engine *)

(** *** The regular expressions the search builds

    [re.compile] and [Pattern.search] on the fragment of Python's syntax
    that the translation of a wildcard pattern can produce when the pattern
    holds no special character besides [.], [*] and [?]: literal
    characters, a backslash in front of a character that is not a letter or
    a digit, [.], [^], [$], and [*] after a character atom.  On any other
    input [re_compile] answers [None]: there Python either raises
    [re.error] or gives the characters a meaning this model does not
    cover. *)

Module Re.

Inductive atom : Type :=
| Bol                 (* ^ *)
| Eol                 (* $ *)
| Any                 (* . *)
| Chr (c : ascii).

Inductive piece : Type :=
| One (a : atom)
| Star (a : atom).

Definition regex : Type := list piece.

Definition is_alnum (c : ascii) : bool :=
  let n := N_of_ascii c in
  ((48 <=? n) && (n <=? 57) || (65 <=? n) && (n <=? 90)
   || (97 <=? n) && (n <=? 122))%N.

(** The characters of [sre_parse.SPECIAL_CHARS] that start no atom of the
    fragment. *)
Definition unsupported (c : ascii) : bool :=
  Str.has_char c "*+?{[()|".

Definition is_star (c : ascii) : bool := Ascii.eqb c "*".

Definition consumes (a : atom) : bool :=
  match a with Bol | Eol => false | _ => true end.

(** An atom followed by what comes after it: [a*] when the next character
    is a star (an error after [^] or [$]: nothing to repeat). *)
Definition quantify (a : atom) (starred : bool) (tail : option regex)
    : option regex :=
  match tail with
  | None => None
  | Some r =>
      if starred then (if consumes a then Some (Star a :: r) else None)
      else Some (One a :: r)
  end.

Fixpoint re_compile (s : string) : option regex :=
  match s with
  | EmptyString => Some []
  | String c s1 =>
      if Ascii.eqb c "\" then
        match s1 with
        | EmptyString => None
        | String d s2 =>
            if is_alnum d then None
            else
              match s2 with
              | String e s3 =>
                  if is_star e then quantify (Chr d) true (re_compile s3)
                  else quantify (Chr d) false (re_compile s2)
              | EmptyString => quantify (Chr d) false (re_compile s2)
              end
        end
      else if unsupported c then None
      else
        let a :=
          if Ascii.eqb c "." then Any
          else if Ascii.eqb c "^" then Bol
          else if Ascii.eqb c "$" then Eol
          else Chr c in
        match s1 with
        | String e s2 =>
            if is_star e then quantify a true (re_compile s2)
            else quantify a false (re_compile s1)
        | EmptyString => quantify a false (re_compile s1)
        end
  end.

Definition is_lf (c : ascii) : bool := Ascii.eqb c (ascii_of_nat 10).

(** Without flags [.] takes any character but a line feed. *)
Definition atom_takes (a : atom) (c : ascii) : bool :=
  match a with
  | Any => negb (is_lf c)
  | Chr d => Ascii.eqb d c
  | Bol | Eol => false
  end.

(** Without flags [$] holds at the end of the text and in front of a line
    feed that ends the text. *)
Definition at_end (s : string) : bool :=
  match s with
  | EmptyString => true
  | String c EmptyString => is_lf c
  | _ => false
  end.

(** Does [re] match a prefix of [s]; [at_start] says that [s] is the whole
    text, which is where [^] holds. *)
Fixpoint match_here (re : regex) (at_start : bool) (s : string) : bool :=
  match re with
  | [] => true
  | One Bol :: re' => at_start && match_here re' at_start s
  | One Eol :: re' => at_end s && match_here re' at_start s
  | One a :: re' =>
      match s with
      | EmptyString => false
      | String c s' => atom_takes a c && match_here re' false s'
      end
  | Star a :: re' =>
      (fix star (at_start : bool) (s : string) {struct s} : bool :=
         match_here re' at_start s ||
         match s with
         | EmptyString => false
         | String c s' => atom_takes a c && star false s'
         end) at_start s
  end.

Fixpoint search_from (re : regex) (at_start : bool) (s : string) : bool :=
  match_here re at_start s ||
  match s with
  | EmptyString => false
  | String _ s' => search_from re false s'
  end.

(** [re.search(s) is not None] *)
Definition search (re : regex) (s : string) : bool := search_from re true s.

End Re.

(** What [search_files] prepares before it walks: [pattern_re], or
    [search_lower] when [pattern_re] is [None]. *)
Inductive matcher : Type :=
| Wildcard (pattern_re : Re.regex)
| Literal (search_lower : string).

Definition regex_source (search_lower : string) : string :=
  let regex_pattern := Str.replace "." "\." search_lower in
  let regex_pattern := Str.replace "*" ".*" regex_pattern in
  let regex_pattern := Str.replace "?" "." regex_pattern in
  "^" +++ regex_pattern +++ "$".

Definition compile_pattern (search_pattern : string) : option matcher :=
  let search_lower := Str.lower search_pattern in
  if Str.has_char "*" search_pattern || Str.has_char "?" search_pattern then
    option_map Wildcard (Re.re_compile (regex_source search_lower))
  else Some (Literal search_lower).

(** The value of [matches] for an item called [item_name]. *)
Definition name_matches (m : matcher) (item_name : string) : bool :=
  let item_lower := Str.lower item_name in
  match m with
  | Wildcard pattern_re => Re.search pattern_re item_lower
  | Literal search_lower => Str.contains search_lower item_lower
  end.

(** *** Sizes

    [size] starts as the integer [st_size]; the first [size /= 1024.0] turns
    it into a double, [to_double], and every division of a double by 1024
    is exact, so from then on the value is the rational [num / den] kept
    here, [num] being a double.  [fmt1] is the [.1f] conversion: the decimal
    with one digit after the point nearest to the value, ties to the even
    digit.  [st_size] is an [off_t], below 2^63; a Python integer from
    2^1024 on, which has no double, is outside the model. *)

Definition dec (n : N) : string := NilZero.string_of_uint (N.to_uint n).

Definition round_half_even (a b : N) : N :=
  let q := (a / b)%N in
  let r := (a mod b)%N in
  if (2 * r <? b)%N then q
  else if (b <? 2 * r)%N then (q + 1)%N
  else if N.even q then q else (q + 1)%N.

Definition fmt1 (num den : N) : string :=
  let tenths := round_half_even (10 * num) den in
  dec (tenths / 10) +++ "." +++ dec (tenths mod 10).

Fixpoint size_loop (units : list string) (num den : N) : string :=
  match units with
  | [] => fmt1 num den +++ " TB"
  | unit :: units' =>
      if (num <? 1024 * den)%N then fmt1 num den +++ " " +++ unit
      else size_loop units' num (den * 1024)
  end.

(** [float(n)]: the double nearest to the integer [n], ties to the even
    significand.  An integer below 2^53 is a double; a larger one keeps its
    53 leading bits, the [e] bits after them being rounded away. *)
Definition to_double (n : N) : N :=
  if (n <? 2 ^ 53)%N then n
  else
    let e := (N.log2 n - 52)%N in
    (round_half_even n (2 ^ e) * 2 ^ e)%N.

(** [_get_size], given [file_path.stat().st_size].  The first turn of the
    loop, for the unit B, works on the integer; the turns for KB, MB and GB
    and the line for TB work on the double it has become. *)
Definition _get_size (st_size : N) : string :=
  if (st_size <? 1024)%N then fmt1 st_size 1 +++ " " +++ "B"
  else size_loop ["KB"; "MB"; "GB"] (to_double st_size) 1024.

Definition _get_modified_time (e : entry) : string :=
  match stat_mtime e with
  | Some t => t
  | None => "Unknown"
  end.

(** *** The walk *)

Record SearchResult : Type := {
  r_name : string;
  r_path : string;
  r_relative_path : string;
  r_type : string;
  r_size : option string;
  r_modified : string
}.

(** The dictionary appended for a matching [item]; [None] is the
    [ValueError] of [relative_to]. *)
Definition make_result (root_path item_path : Path) (item : entry)
    : option SearchResult :=
  let rel_path :=
    if negb (PathOps.eqb item_path root_path)
    then PathOps.relative_to item_path root_path
    else Some [name item] in
  match rel_path with
  | None => None
  | Some rel_path =>
      Some {| r_name := name item;
              r_path := PathOps.str item_path;
              r_relative_path := PathOps.str_rel rel_path;
              r_type := if is_dir item then "directory" else "file";
              r_size :=
                match item with
                | File _ st_size _ => Some (_get_size st_size)
                | _ => None
                end;
              r_modified := _get_modified_time item |}
  end.

(** The [for item in items] loop of [search_recursive], open in the
    recursive call [rec]. *)
Section SearchLoop.
Variable self : TreeVisualizer.
Variable m : matcher.
Variable root_path : Path.
Variable rec : Path -> entry -> Z -> option (list SearchResult).
Variable current_path : Path.
Variable depth : Z.

Fixpoint search_loop (items : list entry) : option (list SearchResult) :=
  match items with
  | [] => Some []
  | item :: rest =>
      if should_exclude self (name item) then search_loop rest
      else
        let item_path := PathOps.child current_path (name item) in
        match
          (if name_matches m (name item)
           then option_map (fun r => [r])
                           (make_result root_path item_path item)
           else Some []),
          (if is_dir item then rec item_path item (depth + 1)%Z
           else Some []),
          search_loop rest
        with
        | Some found, Some below, Some after =>
            Some (found ++ below ++ after)
        | _, _, _ => None
        end
  end.
End SearchLoop.

(** [search_recursive]; the list it returns is what the call appends to
    [results], in order. *)
Fixpoint search_recursive (self : TreeVisualizer) (m : matcher)
    (root_path current_path : Path) (current : entry) (depth : Z)
    {struct current} : option (list SearchResult) :=
  if too_deep self depth then Some []
  else
    match current with
    | Dir _ _ (Some items) =>
        search_loop self m root_path (search_recursive self m root_path)
                    current_path depth items
    | _ => Some []
    end.

Definition search_files (self : TreeVisualizer) (root_path : Path)
    (root : entry) (search_pattern : string) : option (list SearchResult) :=
  match compile_pattern search_pattern with
  | None => None
  | Some m => search_recursive self m root_path root_path root 0
  end.

(** ** Ghost views of the two walks *)

(** The loop of [get_tree_lines] on the lines alone, as the source has it. *)
Section LinesLoop.
Variable rec : entry -> string -> bool -> Z -> list string.
Variable prefix : string.
Variable is_last : bool.
Variable depth : Z.
Variable n : nat.

Fixpoint lines_loop (i : nat) (sorted_items : list entry) : list string :=
  match sorted_items with
  | [] => []
  | item :: rest =>
      let is_last_item := Nat.eqb i (n - 1) in
      let connector :=
        if is_last then (if is_last_item then "└── " else "├── ")
        else (if is_last_item then "├── " else "├── ") in
      let next_prefix :=
        if is_last then prefix +++ "    " else prefix +++ "│   " in
      (prefix +++ connector +++ name item)
      :: (if is_dir item
          then rec item next_prefix is_last_item (depth + 1)%Z
          else [])
      ++ lines_loop (S i) rest
  end.
End LinesLoop.

(** [sorted_items] of [get_tree_lines] for a listing. *)
Definition sorted_items_of (self : TreeVisualizer) (items : list entry)
    : list entry :=
  let items :=
    filter (fun item => negb (should_exclude self (name item))) items in
  let dirs := sorted lower_name (filter is_dir items) in
  let files := sorted lower_name (filter is_file items) in
  dirs ++ files.

(** The payload of the [('progress', len(items))] event of
    [get_tree_lines]: the listing after the exclusion filter. *)
Definition progress_count (self : TreeVisualizer) (items : list entry) : nat :=
  length (filter (fun item => negb (should_exclude self (name item))) items).

(** An entry met by a walk: its path below the scan root and itself. *)
Definition hit : Type := (list string * entry)%type.

Section HitsLoop.
Variable self : TreeVisualizer.
Variable m : matcher.
Variable rec : list string -> entry -> Z -> list hit.
Variable here : list string.
Variable depth : Z.

Fixpoint hits_loop (items : list entry) : list hit :=
  match items with
  | [] => []
  | item :: rest =>
      if should_exclude self (name item) then hits_loop rest
      else
        let p := here ++ [name item] in
        (if name_matches m (name item) then [(p, item)] else [])
        ++ (if is_dir item then rec p item (depth + 1)%Z else [])
        ++ hits_loop rest
  end.
End HitsLoop.

(** The entries for which [search_recursive] appends a record. *)
Fixpoint search_hits (self : TreeVisualizer) (m : matcher)
    (here : list string) (current : entry) (depth : Z) {struct current}
    : list hit :=
  if too_deep self depth then []
  else
    match current with
    | Dir _ _ (Some items) =>
        hits_loop self m (search_hits self m) here depth items
    | _ => []
    end.

(** The record of a hit. *)
Definition hit_result (root_path : Path) (h : hit) : SearchResult :=
  let (rel, item) := h in
  {| r_name := name item;
     r_path := PathOps.str (root_path ++ rel);
     r_relative_path := PathOps.str_rel rel;
     r_type := if is_dir item then "directory" else "file";
     r_size :=
       match item with
       | File _ st_size _ => Some (_get_size st_size)
       | _ => None
       end;
     r_modified := _get_modified_time item |}.

Section ListedLoop.
Variable self : TreeVisualizer.
Variable rec : list string -> entry -> Z -> list hit.
Variable here : list string.
Variable depth : Z.

Fixpoint listed_loop (items : list entry) : list hit :=
  match items with
  | [] => []
  | item :: rest =>
      let p := here ++ [name item] in
      (p, item)
      :: (if negb (should_exclude self (name item)) && is_dir item
          then rec p item (depth + 1)%Z else [])
      ++ listed_loop rest
  end.
End ListedLoop.

(** The entries a walk encounters: whatever a listing yields in a directory
    the walk lists.  Both walks list the same directories: the root, and
    every directory that passes the filter and is met at a depth the bound
    allows. *)
Fixpoint encountered (self : TreeVisualizer) (here : list string)
    (current : entry) (depth : Z) {struct current} : list hit :=
  if too_deep self depth then []
  else
    match current with
    | Dir _ _ (Some items) =>
        listed_loop self (encountered self) here depth items
    | _ => []
    end.

(** The entries that pass the filter. *)
Definition kept (self : TreeVisualizer) (h : hit) : bool :=
  negb (should_exclude self (name (snd h))).

(** ... and are a directory or a regular file. *)
Definition shown (self : TreeVisualizer) (h : hit) : bool :=
  kept self h && (is_dir (snd h) || is_file (snd h)).

(** The entries that rows render, and the rows that render none. *)
Definition hits_of_rows (rows : list row) : list hit :=
  flat_map (fun r => match row_entry r with
                     | Some e => [(row_path r, e)]
                     | None => []
                     end) rows.

Definition is_placeholder (r : row) : bool :=
  match row_entry r with Some _ => false | None => true end.

(** The entries of the tree output. *)
Definition tree_entries (self : TreeVisualizer) (root : entry) : list hit :=
  hits_of_rows (tree_rows self root [] "" true 0).

(** A child paired with its own walk. *)
Definition pair_up (rec : entry -> walker) (e : entry) : entry * walker :=
  (e, rec e).

Fixpoint sum_over {A : Type} (f : A -> nat) (l : list A) : nat :=
  match l with
  | [] => 0
  | x :: l' => f x + sum_over f l'
  end.

(** How many listings fail in the directories the walk lists. *)
Section DeniedLoop.
Variable self : TreeVisualizer.
Variable rec : entry -> Z -> nat.
Variable depth : Z.

Fixpoint denied_loop (items : list entry) : nat :=
  match items with
  | [] => 0
  | item :: rest =>
      (if negb (should_exclude self (name item)) && is_dir item
       then rec item (depth + 1)%Z else 0)
      + denied_loop rest
  end.
End DeniedLoop.

Fixpoint denied (self : TreeVisualizer) (current : entry) (depth : Z)
    {struct current} : nat :=
  if too_deep self depth then 0
  else
    match current with
    | Dir _ _ (Some items) => denied_loop self (denied self) depth items
    | _ => 1
    end.

(** The number of directory levels under an entry. *)
Fixpoint height (e : entry) : nat :=
  match e with
  | Dir _ _ (Some items) =>
      S ((fix max_height (l : list entry) : nat :=
            match l with
            | [] => 0
            | x :: l' => Nat.max (height x) (max_height l')
            end) items)
  | _ => 0
  end.

Definition set_max_depth (self : TreeVisualizer) (d : option Z)
    : TreeVisualizer :=
  {| show_hidden := show_hidden self;
     max_depth := d;
     exclude_patterns := exclude_patterns self |}.

(** ** The matching rule in the words of the specification *)

(** A wildcard pattern against a whole name: [*] stands for any sequence of
    characters, [?] for exactly one, any other character for itself. *)
Fixpoint glob (p s : string) : bool :=
  match p with
  | EmptyString =>
      match s with EmptyString => true | _ => false end
  | String c p' =>
      if Ascii.eqb c "*" then
        (fix any (s : string) : bool :=
           glob p' s ||
           match s with
           | EmptyString => false
           | String _ s' => any s'
           end) s
      else
        match s with
        | EmptyString => false
        | String d s' => (Ascii.eqb c "?" || Ascii.eqb c d) && glob p' s'
        end
  end.

(** Two characters that are the same letter, whatever their case. *)
Definition same_letter (c d : ascii) : bool :=
  Ascii.eqb (Str.lower_char c) (Str.lower_char d).

(** The wildcard rule with letters compared whatever their case. *)
Fixpoint glob_ci (p s : string) : bool :=
  match p with
  | EmptyString =>
      match s with EmptyString => true | _ => false end
  | String c p' =>
      if Ascii.eqb c "*" then
        (fix any (s : string) : bool :=
           glob_ci p' s ||
           match s with
           | EmptyString => false
           | String _ s' => any s'
           end) s
      else
        match s with
        | EmptyString => false
        | String d s' =>
            (Ascii.eqb c "?" || same_letter c d) && glob_ci p' s'
        end
  end.

(** [p] stands at the start of [s], letters compared whatever their
    case. *)
Fixpoint ci_prefix (p s : string) : bool :=
  match p, s with
  | EmptyString, _ => true
  | String c p', String d s' => same_letter c d && ci_prefix p' s'
  | String _ _, EmptyString => false
  end.

(** [p] occurs somewhere in [s], letters compared whatever their case. *)
Fixpoint ci_occurs (p s : string) : bool :=
  ci_prefix p s ||
  match s with
  | EmptyString => false
  | String _ s' => ci_occurs p s'
  end.

Definition matches_spec (pattern item_name : string) : bool :=
  if Str.has_char "*" pattern || Str.has_char "?" pattern then
    glob_ci pattern item_name
  else ci_occurs pattern item_name.

(** A text of ASCII characters: there a byte is a character, and
    [Str.lower] is [str.lower]. *)
Fixpoint is_ascii (s : string) : bool :=
  match s with
  | EmptyString => true
  | String c s' => (N_of_ascii c <? 128)%N && is_ascii s'
  end.

(** The special characters of Python's regular expressions that the
    translation leaves as they are. *)
Definition is_meta (c : ascii) : bool := Str.has_char c "\+{[()|^$".

Fixpoint meta_free (s : string) : bool :=
  match s with
  | EmptyString => true
  | String c s' => negb (is_meta c) && meta_free s'
  end.

Definition line_feed : ascii := ascii_of_nat 10.

(** The rendered children of a listing: those that pass the filter and are
    a directory or a regular file, in some order. *)
Definition rendered (self : TreeVisualizer) (x : entry) : bool :=
  negb (should_exclude self (name x)) && (is_dir x || is_file x).

(** The entries the search reports: they pass the filter and their name
    matches. *)
Definition wanted (self : TreeVisualizer) (m : matcher) (h : hit) : bool :=
  kept self h && name_matches m (name (snd h)).

(** *** The translation of a wildcard pattern, character by character *)

(** What the three [replace] calls make of one character. *)
Definition fragment (c : ascii) : string :=
  if Ascii.eqb c "." then "\."
  else if Ascii.eqb c "*" then ".*"
  else if Ascii.eqb c "?" then "."
  else String c EmptyString.

Fixpoint translate (s : string) : string :=
  match s with
  | EmptyString => EmptyString
  | String c s' => fragment c +++ translate s'
  end.

(** What [re.compile] makes of one character's fragment. *)
Definition piece_of (c : ascii) : Re.piece :=
  if Ascii.eqb c "." then Re.One (Re.Chr ".")
  else if Ascii.eqb c "*" then Re.Star Re.Any
  else if Ascii.eqb c "?" then Re.One Re.Any
  else Re.One (Re.Chr c).

Fixpoint pieces_of (s : string) : Re.regex :=
  match s with
  | EmptyString => []
  | String c s' => piece_of c :: pieces_of s'
  end.

Definition starts_with_star (s : string) : bool :=
  match s with
  | String e _ => Re.is_star e
  | EmptyString => false
  end.

(** *** The unit [_get_size] ends in *)

Definition unit_index (st_size : N) : nat :=
  if (st_size <? 1024)%N then 0
  else if (st_size <? 1024 ^ 2)%N then 1
  else if (st_size <? 1024 ^ 3)%N then 2
  else if (st_size <? 1024 ^ 4)%N then 3
  else 4.

Definition unit_name (k : nat) : string :=
  nth k ["B"; "KB"; "MB"; "GB"; "TB"] "".

(** The number that is divided and printed: the integer itself in the
    first turn of the loop, the double it becomes afterwards. *)
Definition size_value (st_size : N) : N :=
  if (st_size <? 1024)%N then st_size else to_double st_size.

(** ** The claims of the specification that fail as stated *)

(** Connector rule: the line of [item], last or not among the rendered
    children of a directory, whatever [is_last] says of that directory. *)
Definition connector_as_stated (is_last_item : bool) : string :=
  if is_last_item then "└── " else "├── ".

(** Depth bound: with [max_depth = m] no entry deeper than [m] in either
    output, the depth of an entry being the length of its path below the
    root. *)
Definition depth_bound_as_stated (self : TreeVisualizer) (root : entry)
    (m : matcher) : Prop :=
  forall d, max_depth self = Some d ->
    forall h, In h (tree_entries self root) \/ In h (search_hits self m [] root 0) ->
      (Z.of_nat (length (fst h)) <= d)%Z.

(** Exclusion invariant: an encountered entry is in neither output exactly
    when its name is excluded. *)
Definition exclusion_as_stated (self : TreeVisualizer) (root : entry)
    (m : matcher) : Prop :=
  forall h, In h (encountered self [] root 0) ->
    (~ In h (tree_entries self root) /\ ~ In h (search_hits self m [] root 0)
     <-> should_exclude self (name (snd h)) = true).

(** Matching rule. *)
Definition matching_as_stated (pattern item_name : string) : Prop :=
  forall m, compile_pattern pattern = Some m ->
    name_matches m item_name = matches_spec pattern item_name.

(** Line count: as many lines under the root line as entries that pass the
    filter in the directories the walk lists. *)
Definition line_count_as_stated (self : TreeVisualizer) (root : entry) : Prop :=
  length (get_tree_lines self root "" true 0)
  = length (filter (kept self) (encountered self [] root 0)).

(** ** File systems used as examples *)

(** A root with one directory that cannot be listed, between two files. *)
Definition locked_fs : entry :=
  Dir "data" None
    (Some [ File "a.txt" 10 None; Dir "locked" None None;
            File "z.txt" 20 None ]).

(** A root with a dangling link next to a file. *)
Definition special_fs : entry :=
  Dir "run" None
    (Some [ Special "app.sock" None; File "notes.txt" 2048 None ]).

(** ** Further definitions *)

(** The order [sorted] sorts by. *)
Definition key_le {A : Type} (key : A -> string) (x y : A) : Prop :=
  String.leb (key x) (key y) = true.

(** [l1] is [l2] with some elements left out, the order kept. *)
Inductive subseq {A : Type} : list A -> list A -> Prop :=
| subseq_nil : forall l, subseq [] l
| subseq_keep : forall x l1 l2, subseq l1 l2 -> subseq (x :: l1) (x :: l2)
| subseq_skip : forall x l1 l2, subseq l1 l2 -> subseq l1 (x :: l2).

(** One depth bound allows what the other allows, and maybe more. *)
Definition at_least_as_deep (md md' : option Z) : Prop :=
  match md, md' with
  | _, None => True
  | Some d, Some d' => (d <= d')%Z
  | None, Some _ => False
  end.

(** The indentation in front of a connector: one unit for each directory
    above, a bar and three spaces or four spaces. *)
Fixpoint indent_of (bars : list bool) : string :=
  match bars with
  | [] => EmptyString
  | b :: bars' => (if b then "│   " else "    ") +++ indent_of bars'
  end.

(** The shape of a row: the line of an entry is indentation, a connector
    and the name, with one unit of indentation for each directory between
    the root and the entry; a placeholder has one unit more. *)
Definition well_indented (r : row) : Prop :=
  match row_entry r with
  | Some e =>
      exists bars connector,
        length bars + 1 = length (row_path r)
        /\ (connector = "└── " \/ connector = "├── ")
        /\ row_line r = indent_of bars +++ connector +++ name e
        /\ last (row_path r) "" = name e
  | None =>
      exists bars,
        length bars = length (row_path r)
        /\ row_line r = indent_of bars +++ "└── [Permission Denied]"
  end.

(** ** The options read from the window *)

(** [c.isspace()] on the ASCII range. *)
Definition is_space (c : ascii) : bool :=
  let n := N_of_ascii c in
  ((9 <=? n) && (n <=? 13) || (28 <=? n) && (n <=? 32))%N.

(** [s.lstrip()] *)
Fixpoint lstrip (s : string) : string :=
  match s with
  | EmptyString => EmptyString
  | String c s' => if is_space c then lstrip s' else s
  end.

(** [s.rstrip()] *)
Fixpoint rstrip (s : string) : string :=
  match s with
  | EmptyString => EmptyString
  | String c s' =>
      match rstrip s' with
      | EmptyString => if is_space c then EmptyString else String c EmptyString
      | r => String c r
      end
  end.

(** [s.strip()] *)
Definition strip (s : string) : string := rstrip (lstrip s).

(** [s.split(sep)] for a one-character [sep]: always at least one piece. *)
Fixpoint split (sep : ascii) (s : string) : list string :=
  match s with
  | EmptyString => [EmptyString]
  | String c s' =>
      if Ascii.eqb c sep then EmptyString :: split sep s'
      else
        match split sep s' with
        | piece :: pieces => String c piece :: pieces
        | [] => [String c EmptyString]
        end
  end.

Definition is_empty (s : string) : bool :=
  match s with EmptyString => true | _ => false end.

(** [[p.strip() for p in text.split(',') if p.strip()]] of
    [generate_tree]. *)
Definition gui_exclude_patterns (text : string) : list string :=
  map strip (filter (fun p => negb (is_empty (strip p))) (split "," text)).

(** The [TreeVisualizer] that [generate_tree] builds from the check box,
    the depth chosen and the text of the exclude field. *)
Definition gui_visualizer (show_hidden_var : bool) (max_depth : option Z)
    (exclude_var : string) : TreeVisualizer :=
  init show_hidden_var max_depth (Some (gui_exclude_patterns exclude_var)).

(** ** The progress events *)

(** The counts that [get_tree_lines] puts on the queue, in order: for each
    directory it lists, the number of children that pass the filter. *)
Definition tree_progress_body {A : Type} (self : TreeVisualizer)
    (item_entry : A -> entry) (rec : A -> Z -> list nat) (depth : Z)
    (items : list A) : list nat :=
  let items :=
    filter (fun item => negb (should_exclude self (name (item_entry item))))
           items in
  let dirs :=
    sorted (fun x => lower_name (item_entry x))
           (filter (fun item => is_dir (item_entry item)) items) in
  let files :=
    sorted (fun x => lower_name (item_entry x))
           (filter (fun item => is_file (item_entry item)) items) in
  let sorted_items := dirs ++ files in
  length items
  :: flat_map (fun item => if is_dir (item_entry item)
                           then rec item (depth + 1)%Z else [])
              sorted_items.

Fixpoint tree_progress (self : TreeVisualizer) (root_dir : entry) (depth : Z)
    {struct root_dir} : list nat :=
  if too_deep self depth then []
  else
    match root_dir with
    | Dir _ _ (Some items) =>
        tree_progress_body self fst snd depth
          ((fix pair_up (l : list entry) : list (entry * (Z -> list nat)) :=
              match l with
              | [] => []
              | e :: l' => (e, tree_progress self e) :: pair_up l'
              end) items)
    | _ => []
    end.

(** The counts that [search_recursive] puts on the queue, in order: for
    each directory it lists, the number of its children, excluded or
    not. *)
Section SearchProgressLoop.
Variable self : TreeVisualizer.
Variable rec : entry -> Z -> list nat.
Variable depth : Z.

Fixpoint search_progress_loop (items : list entry) : list nat :=
  match items with
  | [] => []
  | item :: rest =>
      (if should_exclude self (name item) then []
       else if is_dir item then rec item (depth + 1)%Z else [])
      ++ search_progress_loop rest
  end.
End SearchProgressLoop.

Fixpoint search_progress (self : TreeVisualizer) (current : entry)
    (depth : Z) {struct current} : list nat :=
  if too_deep self depth then []
  else
    match current with
    | Dir _ _ (Some items) =>
        length items
        :: search_progress_loop self (search_progress self) depth items
    | _ => []
    end.

(** ** The colours of the tree display *)

Inductive tag : Type :=
| directory | python | javascript | html | css | markdown | config.

(** [s.endswith(suffix)] *)
Fixpoint endswith (s suffix : string) : bool :=
  String.eqb s suffix ||
  match s with
  | EmptyString => false
  | String _ s' => endswith s' suffix
  end.

(** [any(ext in line_lower for ext in exts)] *)
Definition any_in (exts : list string) (line_lower : string) : bool :=
  existsb (fun ext => Str.contains ext line_lower) exts.

(** The tag that the loop of [_update_tree_display] adds to a line. *)
Definition line_tag (line : string) : option tag :=
  if Str.contains "/" line && endswith (strip line) "/" then Some directory
  else if any_in [".py"; ".pyw"] (Str.lower line) then Some python
  else if any_in [".js"; ".jsx"; ".ts"; ".tsx"] (Str.lower line)
  then Some javascript
  else if any_in [".html"; ".htm"] (Str.lower line) then Some html
  else if Str.contains ".css" (Str.lower line) then Some css
  else if any_in [".md"; ".markdown"] (Str.lower line) then Some markdown
  else if any_in [".json"; ".yaml"; ".yml"; ".toml"; ".ini"] (Str.lower line)
  then Some config
  else None.

(** [for i, line in enumerate(lines, 1)]: the tags added, with the number
    of the line each goes to. *)
Fixpoint tag_lines (i : nat) (lines : list string) : list (nat * tag) :=
  match lines with
  | [] => []
  | line :: rest =>
      match line_tag line with
      | Some t => [(i, t)]
      | None => []
      end ++ tag_lines (S i) rest
  end.

(** The tags of [_update_tree_display]: the text widget gives its content
    back with a line feed at the end, and the content is split at line
    feeds. *)
Definition display_tags (tree_text : string) : list (nat * tag) :=
  let content := tree_text +++ newline in
  let lines := split line_feed content in
  tag_lines 1 lines.

(** No name under [e] holds the character [c]. *)
Fixpoint names_free (c : ascii) (e : entry) : bool :=
  match e with
  | Dir _ _ (Some items) =>
      (fix all (l : list entry) : bool :=
         match l with
         | [] => true
         | x :: l' =>
             negb (Str.has_char c (name x)) && names_free c x && all l'
         end) items
  | _ => true
  end.

(** [c] is no character of the connectors, the indentation and the
    placeholder. *)
Definition decoration_free (c : ascii) : bool :=
  negb (Str.has_char c "│   └── ├── [Permission Denied]").

(** The entries rendered [k] levels under the root, in the order of their
    lines. *)
Definition entries_at_level (k : nat) (rows : list row) : list entry :=
  flat_map (fun r => match row_entry r with
                     | Some e =>
                         if Nat.eqb (length (row_path r)) k then [e] else []
                     | None => []
                     end) rows.

(** * Proofs *)

(** ** Induction on the file system *)

Section EntryInduction.
Variable P : entry -> Prop.
Hypothesis P_File : forall n size m, P (File n size m).
Hypothesis P_Special : forall n m, P (Special n m).
Hypothesis P_Denied : forall n m, P (Dir n m None).
Hypothesis P_Dir :
  forall n m items, Forall P items -> P (Dir n m (Some items)).

Fixpoint entry_nested_ind (e : entry) : P e :=
  match e with
  | File n size m => P_File n size m
  | Special n m => P_Special n m
  | Dir n m None => P_Denied n m
  | Dir n m (Some items) =>
      P_Dir n m items
        ((fix all (l : list entry) : Forall P l :=
            match l with
            | [] => Forall_nil P
            | x :: l' => Forall_cons x (entry_nested_ind x) (all l')
            end) items)
  end.
End EntryInduction.

(** ** Sorting and filtering *)

Section SortedFacts.
Context {A : Type}.
Variable key : A -> string.

Lemma insert_by_perm (x : A) (l : list A) :
  Permutation (insert_by key x l) (x :: l).
Proof.
  induction l as [|y l IH]; simpl.
  - apply Permutation_refl.
  - destruct (String.leb (key x) (key y)).
    + apply Permutation_refl.
    + eapply perm_trans; [apply perm_skip, IH | apply perm_swap].
Qed.

Lemma sorted_perm (l : list A) : Permutation (sorted key l) l.
Proof.
  induction l as [|x l IH]; simpl.
  - constructor.
  - eapply perm_trans; [apply insert_by_perm | apply perm_skip, IH].
Qed.

Lemma sorted_In (x : A) (l : list A) : In x (sorted key l) <-> In x l.
Proof.
  split; apply Permutation_in;
    [apply sorted_perm | apply Permutation_sym, sorted_perm].
Qed.

Lemma sorted_length (l : list A) : length (sorted key l) = length l.
Proof. apply Permutation_length, sorted_perm. Qed.
End SortedFacts.

Section MapFacts.
Context {A B : Type}.
Variable f : A -> B.

Lemma filter_map_swap (p : B -> bool) (l : list A) :
  filter p (map f l) = map f (filter (fun x => p (f x)) l).
Proof.
  induction l as [|x l IH]; simpl; [reflexivity|].
  destruct (p (f x)); simpl; now rewrite IH.
Qed.

Lemma insert_by_map (key : B -> string) (x : A) (l : list A) :
  insert_by key (f x) (map f l)
  = map f (insert_by (fun a => key (f a)) x l).
Proof.
  induction l as [|y l IH]; simpl; [reflexivity|].
  destruct (String.leb (key (f x)) (key (f y))); simpl; now rewrite ?IH.
Qed.

Lemma sorted_map (key : B -> string) (l : list A) :
  sorted key (map f l) = map f (sorted (fun a => key (f a)) l).
Proof.
  induction l as [|x l IH]; simpl; [reflexivity|].
  now rewrite IH, insert_by_map.
Qed.
End MapFacts.

Lemma sorted_items_of_In (self : TreeVisualizer) (items : list entry)
    (x : entry) :
  In x (sorted_items_of self items) <->
  In x items /\ should_exclude self (name x) = false
  /\ (is_dir x = true \/ is_file x = true).
Proof.
  unfold sorted_items_of.
  rewrite in_app_iff, !sorted_In, !filter_In, negb_true_iff.
  tauto.
Qed.

(** ** The equations of [get_tree_lines] *)

Lemma tree_loop_map {A B : Type} (f : A -> B)
    (entry_a : A -> entry) (entry_b : B -> entry)
    (rec_a : A -> walker) (rec_b : B -> walker)
    here prefix is_last depth n :
  (forall a, entry_b (f a) = entry_a a) ->
  (forall a, rec_b (f a) = rec_a a) ->
  forall l i,
    tree_loop entry_b rec_b here prefix is_last depth n i (map f l)
    = tree_loop entry_a rec_a here prefix is_last depth n i l.
Proof.
  intros He Hr l; induction l as [|x l IH]; intros i; simpl.
  - reflexivity.
  - now rewrite He, Hr, IH.
Qed.

Lemma tree_body_pair_up (self : TreeVisualizer) (rec : entry -> walker)
    here prefix is_last depth (l : list entry) :
  tree_body self fst snd here prefix is_last depth (map (pair_up rec) l)
  = tree_body self (fun e => e) rec here prefix is_last depth l.
Proof.
  unfold tree_body.
  rewrite !filter_map_swap, !sorted_map, <- map_app, length_map.
  now rewrite (tree_loop_map (pair_up rec) (fun e => e) fst rec snd).
Qed.

(** [get_tree_lines] as the source writes it, on rows. *)
Lemma tree_rows_eq (self : TreeVisualizer) (root_dir : entry)
    here prefix is_last depth :
  tree_rows self root_dir here prefix is_last depth
  = if too_deep self depth then []
    else
      match iterdir root_dir with
      | None =>
          [{| row_line := prefix +++ "└── [Permission Denied]";
              row_path := here;
              row_entry := None |}]
      | Some items =>
          tree_loop (fun e => e) (tree_rows self) here prefix is_last depth
                    (length (sorted_items_of self items)) 0
                    (sorted_items_of self items)
      end.
Proof.
  destruct root_dir as [n size m | n m [items|] | n m];
    cbn [tree_rows iterdir]; destruct (too_deep self depth);
    try reflexivity.
  transitivity (tree_body self (fun e => e) (tree_rows self)
                          here prefix is_last depth items);
    [|reflexivity].
  rewrite <- tree_body_pair_up. reflexivity.
Qed.

Lemma tree_loop_lines (rec : entry -> walker)
    (rec' : entry -> string -> bool -> Z -> list string)
    here prefix is_last depth n :
  forall l i,
    (forall x, In x l -> forall p pre b d,
        map row_line (rec x p pre b d) = rec' x pre b d) ->
    map row_line
      (tree_loop (fun e => e) rec here prefix is_last depth n i l)
    = lines_loop rec' prefix is_last depth n i l.
Proof.
  induction l as [|x l IH]; intros i H; simpl; [reflexivity|].
  rewrite map_app, IH by (intros; apply H; now right).
  destruct (is_dir x); [rewrite H by now left|]; reflexivity.
Qed.

(** The lines do not depend on the ghost path. *)
Lemma tree_rows_lines_here (self : TreeVisualizer) (e : entry) :
  forall here prefix is_last depth,
    map row_line (tree_rows self e here prefix is_last depth)
    = get_tree_lines self e prefix is_last depth.
Proof.
  unfold get_tree_lines.
  induction e as [n size m | n m | n m | n m items IH]
    using entry_nested_ind; intros here prefix is_last depth;
    rewrite !tree_rows_eq; simpl; destruct (too_deep self depth);
    try reflexivity.
  rewrite Forall_forall in IH.
  rewrite !(tree_loop_lines (tree_rows self)
              (fun x pre b d => map row_line (tree_rows self x [] pre b d)));
    [reflexivity | |];
    intros x Hx *; apply IH; apply sorted_items_of_In in Hx; tauto.
Qed.

(** [get_tree_lines] as the source writes it. *)
Lemma get_tree_lines_eq (self : TreeVisualizer) (root_dir : entry)
    prefix is_last depth :
  get_tree_lines self root_dir prefix is_last depth
  = if too_deep self depth then []
    else
      match iterdir root_dir with
      | None => [prefix +++ "└── [Permission Denied]"]
      | Some items =>
          let sorted_items := sorted_items_of self items in
          lines_loop (get_tree_lines self) prefix is_last depth
                     (length sorted_items) 0 sorted_items
      end.
Proof.
  unfold get_tree_lines at 1. rewrite tree_rows_eq.
  destruct (too_deep self depth); [reflexivity|].
  destruct (iterdir root_dir) as [items|]; [|reflexivity].
  cbv zeta. apply tree_loop_lines.
  intros; apply tree_rows_lines_here.
Qed.

(** ** The equations of the search walk *)

Lemma search_recursive_eq (self : TreeVisualizer) (m : matcher)
    (root_path current_path : Path) (current : entry) (depth : Z) :
  search_recursive self m root_path current_path current depth
  = if too_deep self depth then Some []
    else
      match iterdir current with
      | None => Some []
      | Some items =>
          search_loop self m root_path (search_recursive self m root_path)
                      current_path depth items
      end.
Proof.
  destruct current as [n size t | n t [items|] | n t]; simpl;
    destruct (too_deep self depth); reflexivity.
Qed.

Lemma search_hits_eq (self : TreeVisualizer) (m : matcher)
    (here : list string) (current : entry) (depth : Z) :
  search_hits self m here current depth
  = if too_deep self depth then []
    else
      match iterdir current with
      | None => []
      | Some items => hits_loop self m (search_hits self m) here depth items
      end.
Proof.
  destruct current as [n size t | n t [items|] | n t]; simpl;
    destruct (too_deep self depth); reflexivity.
Qed.

Lemma encountered_eq (self : TreeVisualizer) (here : list string)
    (current : entry) (depth : Z) :
  encountered self here current depth
  = if too_deep self depth then []
    else
      match iterdir current with
      | None => []
      | Some items => listed_loop self (encountered self) here depth items
      end.
Proof.
  destruct current as [n size t | n t [items|] | n t]; simpl;
    destruct (too_deep self depth); reflexivity.
Qed.

Lemma relative_to_app (base rel : Path) :
  PathOps.relative_to (base ++ rel) base = Some rel.
Proof.
  induction base as [|b base IH]; simpl; [reflexivity|].
  now rewrite String.eqb_refl.
Qed.

Lemma path_below_differs (base rel : Path) :
  rel <> [] -> PathOps.eqb (base ++ rel) base = false.
Proof.
  intros Hrel. unfold PathOps.eqb.
  destruct (list_eq_dec string_dec (base ++ rel) base) as [E|]; [|reflexivity].
  apply (f_equal (@length string)) in E. rewrite length_app in E.
  destruct rel; [congruence | simpl in E; lia].
Qed.

Lemma make_result_below (root_path : Path) (rel : list string) (item : entry) :
  rel <> [] ->
  make_result root_path (root_path ++ rel) item
  = Some (hit_result root_path (rel, item)).
Proof.
  intros Hrel. unfold make_result.
  now rewrite path_below_differs, relative_to_app.
Qed.

Lemma search_loop_hits (self : TreeVisualizer) (m : matcher)
    (root_path : Path)
    (rec : Path -> entry -> Z -> option (list SearchResult))
    (rec' : list string -> entry -> Z -> list hit)
    (here : list string) (depth : Z) (items : list entry) :
  (forall x, In x items -> forall p d,
      rec (root_path ++ p) x d = Some (map (hit_result root_path) (rec' p x d))) ->
  search_loop self m root_path rec (root_path ++ here) depth items
  = Some (map (hit_result root_path)
              (hits_loop self m rec' here depth items)).
Proof.
  induction items as [|x l IH]; intros H; simpl; [reflexivity|].
  rewrite IH by (intros; apply H; now right).
  destruct (should_exclude self (name x)); [reflexivity|].
  unfold PathOps.child. rewrite <- app_assoc.
  rewrite make_result_below by (now destruct here).
  assert (Hx : (if is_dir x
                then rec (root_path ++ here ++ [name x]) x (depth + 1)%Z
                else Some [])
               = Some (map (hit_result root_path)
                           (if is_dir x
                            then rec' (here ++ [name x]) x (depth + 1)%Z
                            else []))).
  { destruct (is_dir x); [apply H; now left | reflexivity]. }
  rewrite Hx.
  destruct (name_matches m (name x)); simpl; now rewrite !map_app.
Qed.

(** The records of the search are the records of its hits; in particular
    [relative_to] never raises. *)
Lemma search_recursive_hits (self : TreeVisualizer) (m : matcher)
    (root_path : Path) (current : entry) :
  forall here depth,
    search_recursive self m root_path (root_path ++ here) current depth
    = Some (map (hit_result root_path)
                (search_hits self m here current depth)).
Proof.
  induction current as [n size t | n t | n t | n t items IH]
    using entry_nested_ind; intros here depth;
    rewrite search_recursive_eq, search_hits_eq; simpl;
    destruct (too_deep self depth); try reflexivity.
  rewrite Forall_forall in IH.
  apply search_loop_hits. intros x Hx p d. now apply IH.
Qed.

(** Every hit lies below the directory the walk started in. *)
Lemma hits_loop_below (self : TreeVisualizer) (m : matcher)
    (rec : list string -> entry -> Z -> list hit)
    (here : list string) (depth : Z) (items : list entry) :
  (forall x, In x items -> forall p d h,
      In h (rec p x d) -> exists rest, fst h = p ++ rest) ->
  forall h, In h (hits_loop self m rec here depth items) ->
    exists rest, fst h = here ++ rest /\ rest <> [].
Proof.
  induction items as [|x l IH]; intros H h; simpl; [tauto|].
  destruct (should_exclude self (name x)).
  - apply IH. intros; eapply H; [right|]; eassumption.
  - rewrite !in_app_iff. intros [Hh | [Hh | Hh]].
    + destruct (name_matches m (name x)); [|destruct Hh].
      destruct Hh as [<- | []]. exists [name x]. now split.
    + destruct (is_dir x); [|destruct Hh].
      apply H in Hh; [|now left]. destruct Hh as [rest ->].
      exists ([name x] ++ rest). rewrite app_assoc. now split.
    + revert Hh. apply IH. intros; eapply H; [right|]; eassumption.
Qed.

Lemma search_hits_below (self : TreeVisualizer) (m : matcher)
    (current : entry) :
  forall here depth h,
    In h (search_hits self m here current depth) ->
    exists rest, fst h = here ++ rest /\ rest <> [].
Proof.
  induction current as [n size t | n t | n t | n t items IH]
    using entry_nested_ind; intros here depth h;
    rewrite search_hits_eq; simpl; destruct (too_deep self depth);
    try (intros []).
  rewrite Forall_forall in IH.
  apply hits_loop_below. intros x Hx p d h' Hh'.
  destruct (IH x Hx p d h' Hh') as [rest [-> _]]. now exists rest.
Qed.

(** ** The tree output against the entries the walk encounters *)

Lemma hits_of_rows_app (r1 r2 : list row) :
  hits_of_rows (r1 ++ r2) = hits_of_rows r1 ++ hits_of_rows r2.
Proof. apply flat_map_app. Qed.

Lemma sum_over_perm {A : Type} (f : A -> nat) (l l' : list A) :
  Permutation l l' -> sum_over f l = sum_over f l'.
Proof. induction 1; simpl; lia. Qed.

Lemma sum_over_filter {A : Type} (f : A -> nat) (p : A -> bool) (l : list A) :
  sum_over f (filter p l) = sum_over (fun x => if p x then f x else 0) l.
Proof.
  induction l as [|x l IH]; simpl; [reflexivity|].
  destruct (p x); simpl; now rewrite IH.
Qed.

Lemma flat_map_filter {A B : Type} (g : A -> list B) (p : A -> bool)
    (l : list A) :
  flat_map g (filter p l) = flat_map (fun x => if p x then g x else []) l.
Proof.
  induction l as [|x l IH]; simpl; [reflexivity|].
  destruct (p x); simpl; now rewrite IH.
Qed.

Lemma flat_map_perm_pointwise {A B : Type} (g g' : A -> list B) (l : list A) :
  (forall x, In x l -> Permutation (g x) (g' x)) ->
  Permutation (flat_map g l) (flat_map g' l).
Proof.
  induction l as [|x l IH]; intros H; simpl; [constructor|].
  apply Permutation_app; [apply H; now left | apply IH].
  intros; apply H; now right.
Qed.

Lemma dirs_then_files_perm (l : list entry) :
  Permutation (filter is_dir l ++ filter is_file l)
              (filter (fun x => is_dir x || is_file x) l).
Proof.
  induction l as [|x l IH]; simpl; [constructor|].
  destruct x as [n size t | n t ls | n t]; simpl.
  - apply Permutation_sym, Permutation_cons_app, Permutation_sym, IH.
  - now apply perm_skip.
  - exact IH.
Qed.

Lemma filter_filter {A : Type} (p q : A -> bool) (l : list A) :
  filter p (filter q l) = filter (fun x => q x && p x) l.
Proof.
  induction l as [|x l IH]; simpl; [reflexivity|].
  destruct (q x); simpl; [destruct (p x)|]; now rewrite IH.
Qed.

Lemma sorted_items_of_perm (self : TreeVisualizer) (items : list entry) :
  Permutation (sorted_items_of self items) (filter (rendered self) items).
Proof.
  unfold sorted_items_of, rendered.
  rewrite <- filter_filter.
  eapply perm_trans; [|apply dirs_then_files_perm].
  apply Permutation_app; apply sorted_perm.
Qed.

Lemma tree_loop_hits_perm (rec : entry -> walker)
    (F : list string -> entry -> Z -> list hit)
    here prefix is_last depth n :
  forall l i,
    (forall x, In x l -> forall p pre b d,
        Permutation (hits_of_rows (rec x p pre b d)) (F p x d)) ->
    Permutation
      (hits_of_rows
         (tree_loop (fun e => e) rec here prefix is_last depth n i l))
      (flat_map
         (fun x => (here ++ [name x], x)
                   :: (if is_dir x then F (here ++ [name x]) x (depth + 1)%Z
                       else []))
         l).
Proof.
  induction l as [|x l IH]; intros i H; [constructor|].
  cbn [tree_loop flat_map].
  change (hits_of_rows (?r :: ?rows))
    with (match row_entry r with
          | Some e => [(row_path r, e)]
          | None => []
          end ++ hits_of_rows rows).
  cbn [row_entry row_path app]. apply perm_skip.
  rewrite hits_of_rows_app.
  apply Permutation_app; [|apply IH; intros; apply H; now right].
  destruct (is_dir x); [apply H; now left | constructor].
Qed.

Lemma listed_loop_shown (self : TreeVisualizer)
    (rec : list string -> entry -> Z -> list hit) here depth items :
  filter (shown self) (listed_loop self rec here depth items)
  = flat_map
      (fun x =>
         if rendered self x
         then (here ++ [name x], x)
              :: (if is_dir x
                  then filter (shown self)
                              (rec (here ++ [name x]) x (depth + 1)%Z)
                  else [])
         else [])
      items.
Proof.
  induction items as [|x l IH]; [reflexivity|].
  cbn [listed_loop flat_map filter]. rewrite filter_app, IH.
  unfold shown at 1, kept, rendered. cbn [snd].
  destruct (should_exclude self (name x)); cbn [negb andb]; [reflexivity|].
  destruct x as [n size t | n t ls | n t]; reflexivity.
Qed.

(** The tree renders, in some order, exactly the encountered entries that
    pass the filter and are a directory or a regular file. *)
Lemma tree_rows_hits_perm (self : TreeVisualizer) (e : entry) :
  forall here prefix is_last depth,
    Permutation (hits_of_rows (tree_rows self e here prefix is_last depth))
                (filter (shown self) (encountered self here e depth)).
Proof.
  induction e as [n size t | n t | n t | n t items IH]
    using entry_nested_ind; intros here prefix is_last depth;
    rewrite tree_rows_eq, encountered_eq; simpl;
    destruct (too_deep self depth); try constructor.
  rewrite Forall_forall in IH.
  eapply perm_trans.
  - apply tree_loop_hits_perm
      with (F := fun p x d => filter (shown self) (encountered self p x d)).
    intros x Hx *. apply IH. apply sorted_items_of_In in Hx. tauto.
  - rewrite listed_loop_shown.
    rewrite <- (flat_map_filter
                  (fun x => (here ++ [name x], x)
                            :: (if is_dir x
                                then filter (shown self)
                                       (encountered self (here ++ [name x]) x
                                                    (depth + 1)%Z)
                                else []))).
    apply Permutation_flat_map, sorted_items_of_perm.
Qed.

Lemma rows_split (rows : list row) :
  length rows
  = length (hits_of_rows rows) + length (filter is_placeholder rows).
Proof.
  induction rows as [|r rows IH]; [reflexivity|].
  unfold hits_of_rows in *. cbn [flat_map filter]. unfold is_placeholder at 1.
  destruct (row_entry r); simpl; lia.
Qed.

Lemma tree_loop_placeholders (rec : entry -> walker) (D : entry -> Z -> nat)
    here prefix is_last depth n :
  forall l i,
    (forall x, In x l -> forall p pre b d,
        length (filter is_placeholder (rec x p pre b d)) = D x d) ->
    length (filter is_placeholder
              (tree_loop (fun e => e) rec here prefix is_last depth n i l))
    = sum_over (fun x => if is_dir x then D x (depth + 1)%Z else 0) l.
Proof.
  induction l as [|x l IH]; intros i H; [reflexivity|].
  cbn [tree_loop sum_over filter]. unfold is_placeholder at 1.
  cbn [row_entry]. rewrite filter_app, length_app.
  rewrite IH by (intros; apply H; now right).
  destruct (is_dir x); [rewrite H by now left|]; reflexivity.
Qed.

Lemma denied_loop_sum (self : TreeVisualizer) (rec : entry -> Z -> nat)
    depth items :
  denied_loop self rec depth items
  = sum_over (fun x => if rendered self x
                       then (if is_dir x then rec x (depth + 1)%Z else 0)
                       else 0) items.
Proof.
  induction items as [|x l IH]; [reflexivity|].
  cbn [denied_loop sum_over]. rewrite IH. f_equal.
  unfold rendered.
  destruct (should_exclude self (name x)); [reflexivity|].
  destruct x; reflexivity.
Qed.

Lemma denied_eq (self : TreeVisualizer) (current : entry) (depth : Z) :
  denied self current depth
  = if too_deep self depth then 0
    else
      match iterdir current with
      | None => 1
      | Some items => denied_loop self (denied self) depth items
      end.
Proof.
  destruct current as [n size t | n t [items|] | n t]; simpl;
    destruct (too_deep self depth); reflexivity.
Qed.

(** One placeholder line for each listing that fails. *)
Lemma tree_rows_placeholders (self : TreeVisualizer) (e : entry) :
  forall here prefix is_last depth,
    length (filter is_placeholder
              (tree_rows self e here prefix is_last depth))
    = denied self e depth.
Proof.
  induction e as [n size t | n t | n t | n t items IH]
    using entry_nested_ind; intros here prefix is_last depth;
    rewrite tree_rows_eq, denied_eq; simpl;
    destruct (too_deep self depth); try reflexivity.
  rewrite Forall_forall in IH.
  rewrite (tree_loop_placeholders (tree_rows self) (denied self)).
  - rewrite (sum_over_perm _ _ _ (sorted_items_of_perm self items)).
    now rewrite sum_over_filter, denied_loop_sum.
  - intros x Hx *. apply IH. apply sorted_items_of_In in Hx. tauto.
Qed.

(** ** The search output against the entries the walk encounters *)

Lemma hits_loop_listed (self : TreeVisualizer) (m : matcher)
    (rec rec' : list string -> entry -> Z -> list hit) here depth items :
  (forall x, In x items -> forall p d,
      rec p x d = filter (wanted self m) (rec' p x d)) ->
  hits_loop self m rec here depth items
  = filter (wanted self m) (listed_loop self rec' here depth items).
Proof.
  induction items as [|x l IH]; intros H; [reflexivity|].
  cbn [hits_loop listed_loop filter].
  rewrite filter_app, <- IH by (intros; apply H; now right).
  unfold wanted at 1, kept. cbn [snd].
  destruct (should_exclude self (name x)); cbn [negb andb]; [reflexivity|].
  assert (Hx : (if is_dir x then rec (here ++ [name x]) x (depth + 1)%Z
                else [])
               = filter (wanted self m)
                   (if is_dir x then rec' (here ++ [name x]) x (depth + 1)%Z
                    else [])).
  { destruct (is_dir x); [apply H; now left | reflexivity]. }
  rewrite Hx. now destruct (name_matches m (name x)).
Qed.

(** The search reports, in the order of the walk, exactly the encountered
    entries that pass the filter and whose name matches. *)
Lemma search_hits_filter (self : TreeVisualizer) (m : matcher) (e : entry) :
  forall here depth,
    search_hits self m here e depth
    = filter (wanted self m) (encountered self here e depth).
Proof.
  induction e as [n size t | n t | n t | n t items IH]
    using entry_nested_ind; intros here depth;
    rewrite search_hits_eq, encountered_eq; simpl;
    destruct (too_deep self depth); try reflexivity.
  rewrite Forall_forall in IH.
  apply hits_loop_listed. intros x Hx p d. now apply IH.
Qed.

(** ** Depth *)

Lemma listed_loop_depth (self : TreeVisualizer)
    (rec : list string -> entry -> Z -> list hit) here depth items :
  too_deep self depth = false ->
  (forall x, In x items -> forall p d h, In h (rec p x d) ->
      exists k, length (fst h) = length p + 1 + k
                /\ too_deep self (d + Z.of_nat k) = false) ->
  forall h, In h (listed_loop self rec here depth items) ->
    exists k, length (fst h) = length here + 1 + k
              /\ too_deep self (depth + Z.of_nat k) = false.
Proof.
  intros Hd. induction items as [|x l IH]; intros H h; simpl; [tauto|].
  rewrite in_app_iff. intros [<- | [Hh | Hh]].
  - exists 0. cbn [fst]. rewrite length_app, Z.add_0_r. cbn [length].
    split; [lia|assumption].
  - destruct (negb (should_exclude self (name x)) && is_dir x);
      [|destruct Hh].
    apply H in Hh; [|now left]. destruct Hh as [k [Hlen Hk]].
    exists (S k). split.
    + rewrite Hlen, length_app. cbn [length]. lia.
    + now replace (depth + Z.of_nat (S k))%Z
        with (depth + 1 + Z.of_nat k)%Z by lia.
  - revert Hh. apply IH. intros; eapply H; [right|]; eassumption.
Qed.

(** An encountered entry sits [k + 1] levels under the directory the walk
    started in, in a directory listed at depth [depth + k], which the bound
    allowed. *)
Lemma encountered_depth (self : TreeVisualizer) (e : entry) :
  forall here depth h,
    In h (encountered self here e depth) ->
    exists k, length (fst h) = length here + 1 + k
              /\ too_deep self (depth + Z.of_nat k) = false.
Proof.
  induction e as [n size t | n t | n t | n t items IH]
    using entry_nested_ind; intros here depth h;
    rewrite encountered_eq; simpl;
    destruct (too_deep self depth) eqn:Hd; try (intros []).
  rewrite Forall_forall in IH.
  apply listed_loop_depth; [assumption|].
  intros x Hx p d h'. now apply IH.
Qed.

Lemma tree_entries_encountered (self : TreeVisualizer) (root : entry) (h : hit) :
  In h (tree_entries self root)
  <-> In h (encountered self [] root 0) /\ shown self h = true.
Proof.
  unfold tree_entries. rewrite <- filter_In.
  split; apply Permutation_in;
    [|apply Permutation_sym]; apply tree_rows_hits_perm.
Qed.

Lemma search_hits_encountered (self : TreeVisualizer) (m : matcher)
    (root : entry) (h : hit) :
  In h (search_hits self m [] root 0)
  <-> In h (encountered self [] root 0) /\ wanted self m h = true.
Proof. now rewrite search_hits_filter, filter_In. Qed.

(** ** Walks under a bound the file system never reaches *)

Lemma height_child (n : string) (t : option string) (items : list entry)
    (x : entry) :
  In x items -> height x < height (Dir n t (Some items)).
Proof.
  cbn [height]. induction items as [|y l IH]; intros []; subst.
  - lia.
  - specialize (IH H). lia.
Qed.

Lemma tree_loop_ext (rec1 rec2 : entry -> walker)
    here prefix is_last depth n :
  forall l i,
    (forall x, In x l -> forall p pre b, rec1 x p pre b (depth + 1)%Z
                                         = rec2 x p pre b (depth + 1)%Z) ->
    tree_loop (fun e => e) rec1 here prefix is_last depth n i l
    = tree_loop (fun e => e) rec2 here prefix is_last depth n i l.
Proof.
  induction l as [|x l IH]; intros i H; [reflexivity|].
  cbn [tree_loop]. rewrite IH by (intros; apply H; now right).
  now rewrite H by now left.
Qed.

Lemma search_loop_ext (self1 self2 : TreeVisualizer) (m : matcher)
    (root_path : Path)
    (rec1 rec2 : Path -> entry -> Z -> option (list SearchResult))
    current_path depth items :
  (forall n, should_exclude self1 n = should_exclude self2 n) ->
  (forall x, In x items -> forall p, rec1 p x (depth + 1)%Z
                                     = rec2 p x (depth + 1)%Z) ->
  search_loop self1 m root_path rec1 current_path depth items
  = search_loop self2 m root_path rec2 current_path depth items.
Proof.
  intros Hex. induction items as [|x l IH]; intros H; [reflexivity|].
  cbn [search_loop]. rewrite IH by (intros; apply H; now right).
  now rewrite Hex, H by now left.
Qed.

Lemma too_deep_set (self : TreeVisualizer) (d depth : Z) :
  (depth <= d)%Z -> too_deep (set_max_depth self (Some d)) depth = false.
Proof. intros H. unfold too_deep; simpl. lia. Qed.

Lemma tree_rows_unbounded (self : TreeVisualizer) (d : Z) (e : entry) :
  forall here prefix is_last depth,
    (depth + Z.of_nat (height e) <= d)%Z ->
    tree_rows (set_max_depth self None) e here prefix is_last depth
    = tree_rows (set_max_depth self (Some d)) e here prefix is_last depth.
Proof.
  induction e as [n size t | n t | n t | n t items IH]
    using entry_nested_ind; intros here prefix is_last depth Hd;
    rewrite !tree_rows_eq; rewrite too_deep_set by lia;
    try reflexivity.
  rewrite Forall_forall in IH. cbn [iterdir too_deep set_max_depth max_depth].
  change (sorted_items_of (set_max_depth self None) items)
    with (sorted_items_of (set_max_depth self (Some d)) items).
  apply tree_loop_ext. intros x Hx *. apply IH.
  - apply sorted_items_of_In in Hx. tauto.
  - apply sorted_items_of_In in Hx. destruct Hx as [Hx _].
    pose proof (height_child n t items x Hx). lia.
Qed.

Lemma search_recursive_unbounded (self : TreeVisualizer) (m : matcher)
    (root_path : Path) (d : Z) (e : entry) :
  forall current_path depth,
    (depth + Z.of_nat (height e) <= d)%Z ->
    search_recursive (set_max_depth self None) m root_path current_path e depth
    = search_recursive (set_max_depth self (Some d)) m root_path
                       current_path e depth.
Proof.
  induction e as [n size t | n t | n t | n t items IH]
    using entry_nested_ind; intros current_path depth Hd;
    rewrite !search_recursive_eq; rewrite too_deep_set by lia;
    try reflexivity.
  rewrite Forall_forall in IH. cbn [iterdir too_deep set_max_depth max_depth].
  apply search_loop_ext; [reflexivity|].
  intros x Hx p. apply IH; [assumption|].
  pose proof (height_child n t items x Hx). lia.
Qed.

(** ** Strings *)

Lemma append_assoc (a b c : string) : (a +++ b) +++ c = a +++ b +++ c.
Proof. induction a as [|x a IH]; simpl; [reflexivity | now rewrite IH]. Qed.

Lemma prefix_spec (p s : string) :
  String.prefix p s = true <-> exists b, s = p +++ b.
Proof.
  revert s; induction p as [|c p IH]; intros s.
  - split; [intros _; now exists s | now destruct s].
  - destruct s as [|d s]; simpl.
    + split; [discriminate | intros [b Hb]; discriminate].
    + destruct (ascii_dec c d) as [->|Hne].
      * rewrite IH. split; intros [b Hb]; exists b; congruence.
      * split; [discriminate | intros [b Hb]; congruence].
Qed.

(** [p in s] is plain substring containment. *)
Lemma contains_spec (p s : string) :
  Str.contains p s = true <-> exists a b, s = a +++ p +++ b.
Proof.
  induction s as [|c s IH].
  - cbn [Str.contains]. rewrite orb_false_r, prefix_spec. split.
    + intros [b Hb]. now exists EmptyString, b.
    + intros [a [b Hab]]. destruct a; [now exists b | discriminate].
  - cbn [Str.contains]. rewrite orb_true_iff, prefix_spec, IH. split.
    + intros [[b Hb] | [a [b Hab]]].
      * now exists EmptyString, b.
      * exists (String c a), b. simpl. now rewrite Hab.
    + intros [a [b Hab]]. destruct a as [|x a].
      * left. now exists b.
      * right. exists a, b. simpl in Hab. congruence.
Qed.

Lemma replace_app (old : ascii) (new a b : string) :
  Str.replace old new (a +++ b)
  = Str.replace old new a +++ Str.replace old new b.
Proof.
  induction a as [|c a IH]; simpl; [reflexivity|].
  destruct (Ascii.eqb c old); simpl; now rewrite IH, ?append_assoc.
Qed.

Lemma lower_char_meta (c : ascii) :
  is_meta (Str.lower_char c) = is_meta c.
Proof. destruct c as [[] [] [] [] [] [] [] []]; reflexivity. Qed.

Lemma lower_char_lf (c : ascii) :
  Ascii.eqb line_feed (Str.lower_char c) = Ascii.eqb line_feed c.
Proof. destruct c as [[] [] [] [] [] [] [] []]; reflexivity. Qed.

Lemma lower_meta_free (s : string) :
  meta_free (Str.lower s) = meta_free s.
Proof.
  induction s as [|c s IH]; simpl; [reflexivity|].
  now rewrite lower_char_meta, IH.
Qed.

Lemma lower_no_line_feed (s : string) :
  Str.has_char line_feed (Str.lower s) = Str.has_char line_feed s.
Proof.
  induction s as [|c s IH]; cbn [Str.has_char Str.lower]; [reflexivity|].
  now rewrite lower_char_lf, IH.
Qed.

Lemma lower_char_idem (c : ascii) :
  Str.lower_char (Str.lower_char c) = Str.lower_char c.
Proof. destruct c as [[] [] [] [] [] [] [] []]; reflexivity. Qed.

Lemma lower_idem (s : string) : Str.lower (Str.lower s) = Str.lower s.
Proof.
  induction s as [|c s IH]; cbn [Str.lower]; [reflexivity|].
  now rewrite lower_char_idem, IH.
Qed.

Lemma lower_char_wildcard (c : ascii) :
  Ascii.eqb "*" (Str.lower_char c) = Ascii.eqb "*" c
  /\ Ascii.eqb "?" (Str.lower_char c) = Ascii.eqb "?" c.
Proof. destruct c as [[] [] [] [] [] [] [] []]; split; reflexivity. Qed.

Lemma lower_has_wildcard (s : string) :
  Str.has_char "*" (Str.lower s) = Str.has_char "*" s
  /\ Str.has_char "?" (Str.lower s) = Str.has_char "?" s.
Proof.
  induction s as [|c s [IH1 IH2]]; cbn [Str.lower Str.has_char];
    [split; reflexivity|].
  destruct (lower_char_wildcard c) as [H1 H2].
  now rewrite H1, H2, IH1, IH2.
Qed.

(** ** From the three replacements to the compiled expression *)

Lemma regex_source_translate (s : string) :
  regex_source s = "^" +++ translate s +++ "$".
Proof.
  unfold regex_source. do 2 f_equal.
  induction s as [|c s IH]; [reflexivity|].
  cbn [Str.replace translate]. unfold fragment.
  destruct (Ascii.eqb_spec c ".") as [->|H1].
  { rewrite !replace_app, IH. reflexivity. }
  destruct (Ascii.eqb_spec c "*") as [->|H2].
  { cbn [Str.replace Ascii.eqb Bool.eqb]. rewrite !replace_app, IH.
    reflexivity. }
  cbn [Str.replace].
  apply Ascii.eqb_neq in H2. rewrite H2. cbn [Str.replace].
  destruct (Ascii.eqb_spec c "?") as [->|H3]; now rewrite IH.
Qed.

Lemma has_char_false_cons (c d : ascii) (s : string) :
  Str.has_char c (String d s) = false ->
  Ascii.eqb c d = false /\ Str.has_char c s = false.
Proof. cbn [Str.has_char]. apply orb_false_elim. Qed.

(** A character of a pattern that is none of [.], [*], [?] and no other
    special character is an ordinary character for [re.compile]. *)
Lemma ordinary_char (c : ascii) :
  is_meta c = false ->
  Ascii.eqb c "." = false -> Ascii.eqb c "*" = false ->
  Ascii.eqb c "?" = false ->
  Ascii.eqb c "\" = false /\ Re.unsupported c = false
  /\ Ascii.eqb c "^" = false /\ Ascii.eqb c "$" = false.
Proof.
  unfold is_meta, Re.unsupported. intros Hm H1 H2 H3.
  repeat (apply has_char_false_cons in Hm;
          let E := fresh "E" in destruct Hm as [E Hm]).
  cbn [Str.has_char]. rewrite H2, H3, E0, E1, E2, E3, E4, E5. auto.
Qed.

Lemma translate_no_star (s tl : string) :
  starts_with_star tl = false ->
  starts_with_star (translate s +++ tl) = false.
Proof.
  intros Htl. destruct s as [|c s]; [exact Htl|].
  cbn [translate]. unfold fragment.
  destruct (Ascii.eqb_spec c "."); [reflexivity|].
  destruct (Ascii.eqb_spec c "*"); [reflexivity|].
  destruct (Ascii.eqb_spec c "?"); [reflexivity|].
  cbn. now apply Ascii.eqb_neq.
Qed.

(** What [re_compile] does after an atom when no star follows. *)
Lemma compile_ordinary (c : ascii) (rest : string) :
  Ascii.eqb c "\" = false -> Re.unsupported c = false ->
  starts_with_star rest = false ->
  Re.re_compile (String c rest)
  = Re.quantify
      (if Ascii.eqb c "." then Re.Any
       else if Ascii.eqb c "^" then Re.Bol
       else if Ascii.eqb c "$" then Re.Eol
       else Re.Chr c)
      false (Re.re_compile rest).
Proof.
  intros H1 H2 H3. cbn [Re.re_compile]. rewrite H1, H2.
  destruct rest as [|e rest]; [reflexivity|].
  cbn [starts_with_star] in H3. now rewrite H3.
Qed.

Lemma compile_translate (p tl : string) (r : Re.regex) :
  meta_free p = true ->
  starts_with_star tl = false ->
  Re.re_compile tl = Some r ->
  Re.re_compile (translate p +++ tl) = Some (pieces_of p ++ r).
Proof.
  intros Hp Htl Hr. induction p as [|c p IH]; [exact Hr|].
  cbn [meta_free] in Hp. apply andb_true_iff in Hp. destruct Hp as [Hc Hp].
  apply negb_true_iff in Hc. specialize (IH Hp).
  pose proof (translate_no_star p tl Htl) as Hstar.
  cbn [translate pieces_of]. unfold fragment, piece_of.
  destruct (Ascii.eqb_spec c ".") as [->|H1].
  { (* an escaped dot *)
    change (("\." +++ translate p) +++ tl)
      with (String "\" (String "." (translate p +++ tl))).
    cbn [Re.re_compile Ascii.eqb Bool.eqb Re.is_alnum].
    destruct (translate p +++ tl) as [|e s3] eqn:E.
    - now rewrite IH.
    - cbn [starts_with_star] in Hstar. rewrite Hstar.
      now rewrite IH. }
  destruct (Ascii.eqb_spec c "*") as [->|H2].
  { change ((".*" +++ translate p) +++ tl)
      with (String "." (String "*" (translate p +++ tl))).
    cbn [Re.re_compile]. now rewrite IH. }
  destruct (Ascii.eqb_spec c "?") as [->|H3].
  { change (("." +++ translate p) +++ tl)
      with (String "." (translate p +++ tl)).
    rewrite compile_ordinary by (reflexivity || assumption).
    now rewrite IH. }
  apply Ascii.eqb_neq in H1, H2, H3.
  destruct (ordinary_char c Hc H1 H2 H3) as [E1 [E2 [E3 E4]]].
  change ((String c "" +++ translate p) +++ tl)
    with (String c (translate p +++ tl)).
  rewrite compile_ordinary by assumption.
  now rewrite IH, H1, E3, E4.
Qed.

(** The expression [search_files] compiles for a wildcard pattern. *)
Lemma compile_regex_source (p : string) :
  meta_free p = true ->
  Re.re_compile (regex_source p)
  = Some (Re.One Re.Bol :: pieces_of p ++ [Re.One Re.Eol]).
Proof.
  intros Hp. rewrite regex_source_translate.
  change ("^" +++ translate p +++ "$")
    with (String "^" (translate p +++ "$")).
  rewrite compile_ordinary;
    [|reflexivity|reflexivity|now apply translate_no_star].
  now rewrite (compile_translate p "$" [Re.One Re.Eol]).
Qed.

(** ** From the compiled expression to the wildcard rule *)

Lemma search_from_bol (re : Re.regex) (s : string) :
  Re.search_from (Re.One Re.Bol :: re) false s = false.
Proof. induction s as [|c s IH]; cbn; [reflexivity | exact IH]. Qed.

Lemma search_anchored (re : Re.regex) (s : string) :
  Re.search (Re.One Re.Bol :: re) s = Re.match_here re true s.
Proof.
  unfold Re.search. destruct s as [|c s]; cbn.
  - apply orb_false_r.
  - now rewrite search_from_bol, orb_false_r.
Qed.

Lemma match_pieces_glob (p : string) :
  forall (b : bool) (s : string),
    Str.has_char line_feed s = false ->
    Re.match_here (pieces_of p ++ [Re.One Re.Eol]) b s = glob p s.
Proof.
  induction p as [|c p IH]; intros b s Hs.
  - cbn. destruct s as [|c [|d s]]; cbn; try reflexivity.
    apply has_char_false_cons in Hs. destruct Hs as [Hc _].
    unfold Re.is_lf. rewrite Ascii.eqb_sym. fold line_feed.
    now rewrite Hc.
  - cbn [pieces_of app glob]. unfold piece_of.
    destruct (Ascii.eqb_spec c ".") as [->|H1].
    { cbn. destruct s as [|d s]; [reflexivity|].
      apply has_char_false_cons in Hs. destruct Hs as [_ Hs].
      now rewrite IH. }
    destruct (Ascii.eqb_spec c "*") as [->|H2].
    { cbn [Re.match_here]. revert b.
      induction s as [|d s IHs]; intros b.
      - rewrite IH by assumption. reflexivity.
      - rewrite IH by assumption.
        apply has_char_false_cons in Hs. destruct Hs as [Hd Hs].
        rewrite (IHs Hs false).
        cbn [Re.atom_takes]. unfold Re.is_lf.
        rewrite Ascii.eqb_sym. fold line_feed. rewrite Hd. reflexivity. }
    destruct (Ascii.eqb_spec c "?") as [->|H3].
    { cbn. destruct s as [|d s]; [reflexivity|].
      apply has_char_false_cons in Hs. destruct Hs as [Hd Hs].
      rewrite IH by assumption.
      unfold Re.is_lf. rewrite Ascii.eqb_sym. fold line_feed.
      now rewrite Hd. }
    cbn [Re.match_here]. destruct s as [|d s]; [reflexivity|].
    apply has_char_false_cons in Hs. destruct Hs as [_ Hs].
    rewrite IH by assumption. reflexivity.
Qed.

(** ** Sizes *)

Lemma to_double_small (n : N) : (n < 2 ^ 53)%N -> to_double n = n.
Proof.
  intros H. unfold to_double.
  destruct (N.ltb_spec n (2 ^ 53)); [reflexivity | lia].
Qed.

(** [round_half_even a b] is an integer nearest to [a / b]. *)
Lemma round_half_even_nearest (a b : N) :
  (0 < b)%N ->
  let t := round_half_even a b in
  (2 * t * b <= 2 * a + b /\ 2 * a <= 2 * t * b + b)%N.
Proof.
  intros Hb. unfold round_half_even.
  pose proof (N.div_mod a b ltac:(lia)) as Hdiv.
  pose proof (N.mod_lt a b ltac:(lia)) as Hmod.
  set (q := (a / b)%N) in *. set (r := (a mod b)%N) in *.
  destruct (N.ltb_spec (2 * r) b); [cbv zeta; nia|].
  destruct (N.ltb_spec b (2 * r)); [cbv zeta; nia|].
  destruct (N.even q); cbv zeta; nia.
Qed.

(** The double of an integer is within half a unit of its last place, and
    an integer from 2^53 on stays large. *)
Lemma to_double_large (n : N) :
  (2 ^ 53 <= n)%N ->
  (2 ^ 52 <= to_double n)%N
  /\ exists ulp, (0 < ulp /\ ulp * 2 ^ 52 <= n
                  /\ 2 * to_double n <= 2 * n + ulp
                  /\ 2 * n <= 2 * to_double n + ulp)%N.
Proof.
  intros H. unfold to_double.
  destruct (N.ltb_spec n (2 ^ 53)) as [Hlt|_]; [lia|]. cbv zeta.
  assert (Hn : (0 < n)%N) by (apply N.lt_le_trans with (2 ^ 53)%N;
                              [reflexivity | assumption]).
  destruct (N.log2_spec n Hn) as [Hlo Hhi].
  assert (H53 : (53 <= N.log2 n)%N).
  { apply N.log2_le_mono in H. now rewrite N.log2_pow2 in H. }
  set (e := (N.log2 n - 52)%N) in *.
  assert (Hsplit : (2 ^ N.log2 n = 2 ^ e * 2 ^ 52)%N).
  { rewrite <- N.pow_add_r. f_equal. unfold e. lia. }
  assert (Hb : (0 < 2 ^ e)%N) by (apply N.neq_0_lt_0, N.pow_nonzero; discriminate).
  pose proof (round_half_even_nearest n (2 ^ e) Hb) as [Hn1 Hn2].
  set (b := (2 ^ e)%N) in *. set (t := round_half_even n b) in *.
  assert (Hbn : (b * 2 ^ 52 <= n)%N) by lia.
  split; [nia|].
  exists b. repeat split; try assumption; nia.
Qed.

Lemma to_double_ltb (n bound : N) :
  (bound <= 2 ^ 52)%N -> (to_double n <? bound)%N = (n <? bound)%N.
Proof.
  intros Hb. destruct (N.ltb_spec n (2 ^ 53)) as [Hlt|Hge].
  - now rewrite to_double_small.
  - destruct (to_double_large n Hge) as [Hd _].
    destruct (N.ltb_spec (to_double n) bound), (N.ltb_spec n bound);
      try reflexivity; lia.
Qed.

Lemma get_size_unit (st_size : N) :
  _get_size st_size
  = fmt1 (size_value st_size) (1024 ^ N.of_nat (unit_index st_size))
    +++ " " +++ unit_name (unit_index st_size).
Proof.
  unfold _get_size, unit_index, size_value.
  destruct (st_size <? 1024)%N; [reflexivity|]. cbn [size_loop].
  change (1024 * 1024)%N with (1024 ^ 2)%N.
  change (1024 * 1024 ^ 2)%N with (1024 ^ 3)%N.
  change (1024 ^ 2 * 1024)%N with (1024 ^ 3)%N.
  change (1024 * 1024 ^ 3)%N with (1024 ^ 4)%N.
  change (1024 ^ 3 * 1024)%N with (1024 ^ 4)%N.
  rewrite !to_double_ltb by (vm_compute; discriminate).
  destruct (st_size <? 1024 ^ 2)%N; [reflexivity|].
  destruct (st_size <? 1024 ^ 3)%N; [reflexivity|].
  destruct (st_size <? 1024 ^ 4)%N; reflexivity.
Qed.

(** The unit is the one whose range holds the size. *)
Lemma unit_index_range (st_size : N) :
  let k := unit_index st_size in
  (k <= 4)%nat
  /\ (k = 0%nat \/ 1024 ^ N.of_nat k <= st_size)%N
  /\ (k = 4%nat \/ st_size < 1024 ^ N.of_nat (S k))%N.
Proof.
  unfold unit_index.
  destruct (N.ltb_spec st_size 1024);
    [cbn; repeat split; auto; lia|].
  destruct (N.ltb_spec st_size (1024 ^ 2));
    [cbn in *; repeat split; auto; lia|].
  destruct (N.ltb_spec st_size (1024 ^ 3));
    [cbn in *; repeat split; auto; lia|].
  destruct (N.ltb_spec st_size (1024 ^ 4));
    cbn in *; repeat split; auto; lia.
Qed.

Lemma dec_digit (n : N) : (n < 10)%N -> String.length (dec n) = 1.
Proof.
  intros H.
  assert (E : n = 0%N \/ n = 1%N \/ n = 2%N \/ n = 3%N \/ n = 4%N
              \/ n = 5%N \/ n = 6%N \/ n = 7%N \/ n = 8%N \/ n = 9%N)
    by lia.
  repeat (destruct E as [-> | E]; [reflexivity|]). now subst.
Qed.

(** [fmt1] writes the tenths nearest to the value with one digit after the
    point. *)
Lemma fmt1_one_decimal (num den : N) :
  (0 < den)%N ->
  exists tenths,
    fmt1 num den = dec (tenths / 10) +++ "." +++ dec (tenths mod 10)
    /\ String.length (dec (tenths mod 10)) = 1
    /\ (2 * tenths * den <= 2 * (10 * num) + den
        /\ 2 * (10 * num) <= 2 * tenths * den + den)%N.
Proof.
  intros Hden. exists (round_half_even (10 * num) den).
  split; [reflexivity|]. split.
  - apply dec_digit, N.mod_lt. lia.
  - now apply round_half_even_nearest.
Qed.

(** ** Loops over a listing split in two *)

Lemma lines_loop_app (rec : entry -> string -> bool -> Z -> list string)
    prefix is_last depth n :
  forall l1 l2 i,
    lines_loop rec prefix is_last depth n i (l1 ++ l2)
    = lines_loop rec prefix is_last depth n i l1
      ++ lines_loop rec prefix is_last depth n (i + length l1) l2.
Proof.
  induction l1 as [|x l1 IH]; intros l2 i.
  - cbn [app lines_loop length]. now rewrite Nat.add_0_r.
  - cbn [app lines_loop length]. rewrite IH, <- !app_assoc.
    now rewrite Nat.add_succ_r.
Qed.

Lemma hits_loop_app (self : TreeVisualizer) (m : matcher)
    (rec : list string -> entry -> Z -> list hit) here depth :
  forall l1 l2,
    hits_loop self m rec here depth (l1 ++ l2)
    = hits_loop self m rec here depth l1
      ++ hits_loop self m rec here depth l2.
Proof.
  induction l1 as [|x l1 IH]; intros l2; [reflexivity|].
  cbn [app hits_loop]. rewrite IH.
  destruct (should_exclude self (name x)); [reflexivity|].
  now rewrite <- !app_assoc.
Qed.

Lemma filter_length_split {A : Type} (p q : A -> bool) (l : list A) :
  length (filter p l)
  = length (filter (fun x => p x && q x) l)
    + length (filter (fun x => p x && negb (q x)) l).
Proof.
  induction l as [|x l IH]; [reflexivity|].
  cbn [filter]. destruct (p x), (q x); cbn [andb negb length]; lia.
Qed.

(** * The claims *)

(** C1 (the code departs from it). The connector of an entry is meant to
    be the corner exactly when the entry is the last of its rendered
    siblings, whatever the position of its parent.  In the loop of
    [get_tree_lines] run for a directory that was not the last of its own
    siblings ([is_last] false), an only child, which is the last one, gets
    the tee; so does [main.py] under [src] in the scenario of the
    specification, being the single rendered entry of [src]. *)
Theorem connector_under_non_last_directory :
  (forall rec prefix depth item,
      hd_error (lines_loop rec prefix false depth 1 0 [item])
      = Some (prefix +++ "├── " +++ name item)
      /\ prefix +++ "├── " +++ name item
         <> prefix +++ connector_as_stated true +++ name item)
  /\ sorted_items_of default_visualizer [File "main.py" 0 None]
     = [File "main.py" 0 None]
  /\ get_tree_lines default_visualizer proj "" true 0
     = ["├── src"; "    ├── main.py"; "└── README.md"].
Proof.
  split; [|split; reflexivity].
  intros rec prefix depth item. split; [reflexivity|].
  intros E. induction prefix as [|c prefix IH]; cbn in E.
  - discriminate.
  - injection E as E. now apply IH.
Qed.

(** C2 (the code departs from it). For the scenario of the specification
    the code yields the four lines below: the line of [main.py] carries
    four spaces and a tee where the specification has a bar, three spaces
    and a corner. *)
Theorem visualize_scenario :
  visualize_lines default_visualizer ["proj"] proj
  = ["proj/"; "├── src"; "    ├── main.py"; "└── README.md"]
  /\ visualize_lines default_visualizer ["proj"] proj
     <> ["proj/"; "├── src"; "│   └── main.py"; "└── README.md"]
  /\ visualize default_visualizer ["proj"] proj
     = "proj/" +++ newline +++ "├── src" +++ newline
       +++ "    ├── main.py" +++ newline +++ "└── README.md".
Proof. split; [reflexivity | split; [discriminate | reflexivity]]. Qed.

(** C7. A directory whose listing fails, reached at a depth the bound
    allows: [get_tree_lines] returns the single placeholder line under the
    prefix it was given; in the loop of the parent the lines of the
    siblings before and after stay in place around the line of the
    directory and its placeholder; [search_recursive] appends nothing for
    it, and in the loop of the parent only the record of the directory's
    own name, when it matches, stands between what the siblings give. *)
Theorem permission_denied (self : TreeVisualizer) (n : string)
    (t : option string) (depth : Z) :
  too_deep self (depth + 1) = false ->
  let d := Dir n t None in
  (forall prefix is_last,
      get_tree_lines self d prefix is_last (depth + 1)
      = [prefix +++ "└── [Permission Denied]"])
  /\ (forall prefix (is_last : bool) k i before after,
         lines_loop (get_tree_lines self) prefix is_last depth k i
                    (before ++ d :: after)
         = lines_loop (get_tree_lines self) prefix is_last depth k i before
           ++ [prefix
               +++ (if is_last
                    then (if Nat.eqb (i + length before) (k - 1)
                          then "└── " else "├── ")
                    else "├── ")
               +++ n;
               (if is_last then prefix +++ "    " else prefix +++ "│   ")
               +++ "└── [Permission Denied]"]
           ++ lines_loop (get_tree_lines self) prefix is_last depth k
                         (S (i + length before)) after)
  /\ (forall m root_path current_path,
         search_recursive self m root_path current_path d (depth + 1)
         = Some [])
  /\ (forall m here before after,
         hits_loop self m (search_hits self m) here depth
                   (before ++ d :: after)
         = hits_loop self m (search_hits self m) here depth before
           ++ (if should_exclude self n then []
               else if name_matches m n then [(here ++ [n], d)] else [])
           ++ hits_loop self m (search_hits self m) here depth after).
Proof.
  intros Hd d. repeat split.
  - intros prefix is_last. rewrite get_tree_lines_eq, Hd. reflexivity.
  - intros prefix is_last k i before after.
    rewrite lines_loop_app. f_equal.
    cbn [lines_loop is_dir d name].
    rewrite get_tree_lines_eq, Hd. cbn [iterdir].
    rewrite Nat.add_1_r || rewrite Nat.add_succ_r || idtac.
    destruct is_last, (Nat.eqb (i + length before) (k - 1)); reflexivity.
  - intros m root_path current_path.
    rewrite search_recursive_eq, Hd. reflexivity.
  - intros m here before after. rewrite hits_loop_app. f_equal.
    cbn [hits_loop is_dir d name].
    rewrite search_hits_eq, Hd. cbn [iterdir].
    destruct (should_exclude self n); [reflexivity|].
    destruct (name_matches m n); reflexivity.
Qed.

Lemma permission_denied_witness :
  too_deep default_visualizer (0 + 1) = false
  /\ get_tree_lines default_visualizer locked_fs "" true 0
     = ["├── locked"; "    └── [Permission Denied]"; "├── a.txt"; "└── z.txt"]
  /\ get_tree_lines default_visualizer (Dir "locked" None None) "    " false
                    (0 + 1)
     = ["    └── [Permission Denied]"].
Proof.
  split; [reflexivity|]. split; [reflexivity|].
  apply (permission_denied default_visualizer "locked" None 0 eq_refl).
Defined.

(** C8, as stated, fails: a directory that cannot be listed adds a
    placeholder line that stands for no entry, and an entry that is neither
    a directory nor a regular file passes the filter without a line. *)
Lemma line_count_as_stated_fails :
  ~ line_count_as_stated default_visualizer locked_fs
  /\ ~ line_count_as_stated default_visualizer special_fs.
Proof. split; intros H; vm_compute in H; discriminate. Qed.

(** C8, amended. The lines under the root line are as many as the entries
    that pass the filter, are a directory or a regular file and are listed
    in a directory the walk lists (the root, and each directory that passes
    the filter and is met at a depth the bound allows), plus one for each
    such directory whose listing fails. *)
Theorem line_count (self : TreeVisualizer) (root : entry)
    (prefix : string) (is_last : bool) (depth : Z) :
  length (get_tree_lines self root prefix is_last depth)
  = length (filter (shown self) (encountered self [] root depth))
    + denied self root depth.
Proof.
  unfold get_tree_lines. rewrite length_map, rows_split.
  rewrite tree_rows_placeholders. f_equal.
  apply Permutation_length, tree_rows_hits_perm.
Qed.

Lemma flat_map_map_swap {A B C : Type} (f : A -> B) (g : B -> list C)
    (l : list A) :
  flat_map g (map f l) = flat_map (fun x => g (f x)) l.
Proof.
  induction l as [|x l IH]; cbn [map flat_map]; [reflexivity|].
  now rewrite IH.
Qed.

Lemma tree_progress_eq (self : TreeVisualizer) (root_dir : entry) (depth : Z) :
  tree_progress self root_dir depth
  = if too_deep self depth then []
    else
      match iterdir root_dir with
      | None => []
      | Some items =>
          progress_count self items
          :: flat_map (fun item => if is_dir item
                                   then tree_progress self item (depth + 1)%Z
                                   else [])
                      (sorted_items_of self items)
      end.
Proof.
  destruct root_dir as [n size t | n t [items|] | n t];
    cbn [tree_progress iterdir]; destruct (too_deep self depth);
    try reflexivity.
  change ((fix pair_up (l : list entry) : list (entry * (Z -> list nat)) :=
             match l with
             | [] => []
             | e :: l' => (e, tree_progress self e) :: pair_up l'
             end) items)
    with (map (fun e => (e, tree_progress self e)) items).
  unfold tree_progress_body, progress_count, sorted_items_of.
  rewrite !filter_map_swap, !sorted_map, <- map_app, length_map.
  now rewrite flat_map_map_swap.
Qed.

(** C10. In a directory that the tree builder lists, an entry that passes
    the filter and is neither a directory nor a regular file is part of
    the count that the builder sends as the progress event of that
    directory, the first event of its walk; it is left out of
    [sorted_items], so that the count exceeds the number of children
    rendered; and it has no line anywhere in the tree. *)
Theorem special_entry_dropped (self : TreeVisualizer) (root : entry)
    (items : list entry) (e : entry) :
  iterdir root = Some items ->
  too_deep self 0 = false ->
  In e items ->
  should_exclude self (name e) = false ->
  is_dir e = false -> is_file e = false ->
  (exists later,
      tree_progress self root 0 = progress_count self items :: later)
  /\ In e (filter (fun item => negb (should_exclude self (name item))) items)
  /\ ~ In e (sorted_items_of self items)
  /\ length (sorted_items_of self items) < progress_count self items
  /\ (forall path, ~ In (path, e) (tree_entries self root)).
Proof.
  intros Hls Hdeep Hin Hex Hd Hf. split; [|repeat split].
  - rewrite tree_progress_eq, Hdeep, Hls. eexists. reflexivity.
  - apply filter_In. split; [assumption | now rewrite Hex].
  - rewrite sorted_items_of_In. intros [_ [_ [H | H]]]; congruence.
  - unfold progress_count.
    rewrite (Permutation_length (sorted_items_of_perm self items)).
    rewrite (filter_length_split
               (fun item => negb (should_exclude self (name item)))
               (fun x => is_dir x || is_file x) items).
    unfold rendered.
    assert (He : In e (filter (fun x => negb (should_exclude self (name x))
                                        && negb (is_dir x || is_file x))
                              items)).
    { apply filter_In. split; [assumption | now rewrite Hex, Hd, Hf]. }
    destruct (filter (fun x => negb (should_exclude self (name x))
                               && negb (is_dir x || is_file x)) items);
      [destruct He | cbn [length]; lia].
  - intros path H. apply tree_entries_encountered in H.
    destruct H as [_ H]. unfold shown in H. cbn [snd] in H.
    rewrite Hd, Hf, andb_false_r in H. discriminate.
Qed.

Lemma special_entry_dropped_witness :
  get_tree_lines default_visualizer special_fs "" true 0 = ["└── notes.txt"]
  /\ tree_progress default_visualizer special_fs 0 = [2]
  /\ ~ In (Special "app.sock" None)
          (sorted_items_of default_visualizer
             [Special "app.sock" None; File "notes.txt" 2048 None]).
Proof.
  split; [reflexivity|]. split; [reflexivity|].
  apply (special_entry_dropped default_visualizer special_fs
           [Special "app.sock" None; File "notes.txt" 2048 None]
           (Special "app.sock" None));
    [reflexivity | reflexivity | left; reflexivity
     | reflexivity | reflexivity | reflexivity].
Defined.

(** C3, as stated, fails: with [max_depth = 0] the children of the root,
    one level under it, are rendered. *)
Lemma depth_bound_as_stated_fails :
  ~ depth_bound_as_stated (init false (Some 0%Z) None) proj (Literal "main").
Proof.
  intros H.
  specialize (H 0%Z eq_refl (["README.md"], File "README.md" 0 None)).
  cbn [fst length] in H.
  assert (Hle : (Z.of_nat 1 <= 0)%Z); [|cbn in Hle; lia].
  apply H. left. vm_compute. right. left. reflexivity.
Qed.

(** C3, amended. With [max_depth = d] no entry deeper than [d + 1] is in
    either output: the bound is on the depth of the directory that is
    listed, so its children, one level further down, are the deepest
    entries.  A bound [d] that is at least the height of the file system
    changes nothing to what the walks yield without a bound. *)
Theorem depth_bound (self : TreeVisualizer) (root : entry) (m : matcher)
    (d : Z) :
  max_depth self = Some d ->
  (forall h,
      In h (tree_entries self root) \/ In h (search_hits self m [] root 0) ->
      (Z.of_nat (length (fst h)) <= d + 1)%Z)
  /\ ((Z.of_nat (height root) <= d)%Z ->
      forall root_path,
        get_tree_lines (set_max_depth self None) root "" true 0
        = get_tree_lines self root "" true 0
        /\ search_recursive (set_max_depth self None) m root_path root_path
                            root 0
           = search_recursive self m root_path root_path root 0).
Proof.
  intros Hmax. split.
  - intros h Hh.
    assert (He : In h (encountered self [] root 0)).
    { destruct Hh as [Hh | Hh].
      - now apply tree_entries_encountered in Hh.
      - now apply search_hits_encountered in Hh. }
    apply encountered_depth in He. destruct He as [k [Hlen Hk]].
    unfold too_deep in Hk. rewrite Hmax in Hk.
    rewrite Hlen. cbn [length]. lia.
  - intros Hh root_path.
    assert (Hself : set_max_depth self (Some d) = self)
      by (destruct self; cbn in *; now subst).
    split.
    + unfold get_tree_lines.
      rewrite (tree_rows_unbounded self d) by lia. now rewrite Hself.
    + rewrite (search_recursive_unbounded self m root_path d) by lia.
      now rewrite Hself.
Qed.

Lemma depth_bound_witness :
  max_depth (init false (Some 2%Z) None) = Some 2%Z
  /\ (Z.of_nat (length (fst (["src"; "main.py"], File "main.py" 0 None)))
      <= 2 + 1)%Z.
Proof.
  split; [reflexivity|].
  apply (depth_bound (init false (Some 2%Z) None) proj (Literal "main") 2%Z
           eq_refl).
  left. vm_compute. right. left. reflexivity.
Defined.

(** C4, as stated, fails: an entry that is neither a directory nor a
    regular file and whose name does not match is in neither output,
    though its name is not excluded. *)
Lemma exclusion_as_stated_fails :
  ~ exclusion_as_stated default_visualizer special_fs (Literal "notes").
Proof.
  intros H.
  specialize (H (["app.sock"], Special "app.sock" None)).
  assert (Hin : In (["app.sock"], Special "app.sock" None)
                   (encountered default_visualizer [] special_fs 0))
    by (vm_compute; left; reflexivity).
  apply H in Hin. destruct Hin as [Hin _].
  assert (E : should_exclude default_visualizer "app.sock" = true);
    [|vm_compute in E; discriminate].
  apply Hin. split; vm_compute; intros [E | []]; discriminate.
Qed.

(** C4, amended. An encountered entry whose name is excluded is in neither
    output; an encountered directory or regular file that is in neither
    output has an excluded name; and a name is excluded exactly when hidden
    entries are off and it starts with a dot, or some configured pattern
    occurs in it as a plain substring. *)
Theorem exclusion_invariant (self : TreeVisualizer) (root : entry)
    (m : matcher) (h : hit) :
  In h (encountered self [] root 0) ->
  (should_exclude self (name (snd h)) = true ->
   ~ In h (tree_entries self root) /\ ~ In h (search_hits self m [] root 0))
  /\ (is_dir (snd h) = true \/ is_file (snd h) = true ->
      ~ In h (tree_entries self root) /\ ~ In h (search_hits self m [] root 0) ->
      should_exclude self (name (snd h)) = true)
  /\ (forall n,
         should_exclude self n = true
         <-> (show_hidden self = false /\ Str.startswith n "." = true)
             \/ exists pattern, In pattern (exclude_patterns self)
                                /\ exists a b, n = a +++ pattern +++ b).
Proof.
  intros Hin. split; [|split].
  - intros Hex. split; intros H.
    + apply tree_entries_encountered in H. destruct H as [_ H].
      unfold shown, kept in H. rewrite Hex in H. discriminate.
    + apply search_hits_encountered in H. destruct H as [_ H].
      unfold wanted, kept in H. rewrite Hex in H. discriminate.
  - intros Hkind [Htree _].
    destruct (should_exclude self (name (snd h))) eqn:Hex; [reflexivity|].
    exfalso. apply Htree. apply tree_entries_encountered.
    split; [assumption|]. unfold shown, kept. rewrite Hex.
    destruct Hkind as [-> | ->]; [reflexivity | apply orb_true_r].
  - intros n. unfold should_exclude.
    destruct (show_hidden self); cbn [negb andb].
    + rewrite existsb_exists. split.
      * intros [p [Hp Hc]]. right. exists p. split; [assumption|].
        now apply contains_spec.
      * intros [[H _] | [p [Hp Hc]]]; [discriminate|].
        exists p. split; [assumption | now apply contains_spec].
    + destruct (Str.startswith n ".").
      * split; [now left | reflexivity].
      * rewrite existsb_exists. split.
        -- intros [p [Hp Hc]]. right. exists p. split; [assumption|].
           now apply contains_spec.
        -- intros [[_ H] | [p [Hp Hc]]]; [discriminate|].
           exists p. split; [assumption | now apply contains_spec].
Qed.

Lemma exclusion_invariant_witness :
  In ([".git"], Dir ".git" None (Some []))
     (encountered default_visualizer [] proj 0)
  /\ ~ In ([".git"], Dir ".git" None (Some []))
          (tree_entries default_visualizer proj).
Proof.
  assert (Hin : In ([".git"], Dir ".git" None (Some []))
                   (encountered default_visualizer [] proj 0))
    by (left; reflexivity).
  split; [exact Hin|].
  apply (exclusion_invariant default_visualizer proj (Literal "git") _ Hin).
  reflexivity.
Defined.

(** ** The matching rule of the code against the rule in words *)

Lemma prefix_lower_ci (p : string) :
  forall s, String.prefix (Str.lower p) (Str.lower s) = ci_prefix p s.
Proof.
  induction p as [|c p IH]; intros [|d s]; cbn [Str.lower String.prefix ci_prefix];
    try reflexivity.
  unfold same_letter.
  destruct (ascii_dec (Str.lower_char c) (Str.lower_char d)) as [E|E].
  - rewrite E, Ascii.eqb_refl. apply IH.
  - apply Ascii.eqb_neq in E. now rewrite E.
Qed.

Lemma contains_lower_ci (p s : string) :
  Str.contains (Str.lower p) (Str.lower s) = ci_occurs p s.
Proof.
  induction s as [|d s IH].
  - cbn [Str.lower Str.contains ci_occurs]. f_equal.
    apply (prefix_lower_ci p EmptyString).
  - cbn [Str.lower Str.contains ci_occurs]. rewrite <- IH. f_equal.
    apply (prefix_lower_ci p (String d s)).
Qed.

Lemma glob_lower_ci (p : string) :
  forall s, glob (Str.lower p) (Str.lower s) = glob_ci p s.
Proof.
  induction p as [|c p IH]; intros s.
  - now destruct s.
  - cbn [Str.lower glob glob_ci].
    destruct (lower_char_wildcard c) as [H1 H2].
    rewrite (Ascii.eqb_sym _ "*"), H1, (Ascii.eqb_sym "*" c).
    destruct (Ascii.eqb c "*").
    + induction s as [|d s IHs]; cbn [Str.lower].
      * rewrite <- IH. reflexivity.
      * rewrite <- IHs, <- IH. reflexivity.
    + destruct s as [|d s]; [reflexivity|]. cbn [Str.lower].
      rewrite IH, (Ascii.eqb_sym _ "?"), H2, (Ascii.eqb_sym "?" c).
      reflexivity.
Qed.

(** C5, as stated, fails, in two ways.  For the search [$] also holds in
    front of a line feed that ends the text, so the pattern [*.txt] matches
    the name [notes.txt] followed by a line feed, which is not a match of
    the whole name.  And only the dot is escaped: in the pattern [a\*] the
    backslash escapes the dot that the translation puts in front of the
    star, the expression reads "a, then any number of dots", and the name
    [a] matches, which it does not under the wildcard rule. *)
Lemma matching_as_stated_fails :
  ~ matching_as_stated "*.txt" ("notes.txt" +++ newline)
  /\ ~ matching_as_stated "a\*" "a".
Proof.
  split; intros H.
  - destruct (compile_pattern "*.txt") as [m|] eqn:E; [|discriminate].
    specialize (H m E). vm_compute in E. injection E as <-.
    vm_compute in H. discriminate.
  - destruct (compile_pattern "a\*") as [m|] eqn:E; [|discriminate].
    specialize (H m E). vm_compute in E. injection E as <-.
    vm_compute in H. discriminate.
Qed.

(** C5, amended, for patterns and names of ASCII characters.  A pattern
    without [*] and [?] matches a name exactly when it occurs in the name,
    letters compared whatever their case.  A pattern with [*] or [?], and
    with no other special character of regular expressions, compiles, and
    it matches a name without line feed exactly when the whole name fits
    the pattern, [*] standing for any sequence of characters, [?] for
    exactly one, and every other character, the dot among them, for
    itself, letters compared whatever their case. *)
Theorem pattern_matching (pattern item_name : string) :
  is_ascii pattern = true ->
  is_ascii item_name = true ->
  (Str.has_char "*" pattern || Str.has_char "?" pattern = true ->
   meta_free pattern = true /\ Str.has_char line_feed item_name = false) ->
  exists m,
    compile_pattern pattern = Some m
    /\ name_matches m item_name = matches_spec pattern item_name.
Proof.
  intros _ _. unfold compile_pattern, matches_spec.
  destruct (Str.has_char "*" pattern || Str.has_char "?" pattern).
  - intros H. destruct (H eq_refl) as [Hp Hn].
    rewrite compile_regex_source by now rewrite lower_meta_free.
    eexists. split; [reflexivity|].
    cbn [name_matches]. rewrite search_anchored.
    rewrite match_pieces_glob by now rewrite lower_no_line_feed.
    apply glob_lower_ci.
  - intros _. eexists. split; [reflexivity|].
    cbn [name_matches]. apply contains_lower_ci.
Qed.

Lemma pattern_matching_witness :
  (exists m, compile_pattern "*.txt" = Some m
             /\ name_matches m "notes.TXT" = true)
  /\ (exists m, compile_pattern "*.txt" = Some m
                /\ name_matches m "notes.txt.bak" = false)
  /\ (exists m, compile_pattern "log" = Some m
                /\ name_matches m "access.log" = true)
  /\ (exists m, compile_pattern "log" = Some m
                /\ name_matches m "LOG.txt" = true).
Proof.
  repeat split.
  - destruct (pattern_matching "*.txt" "notes.TXT" eq_refl eq_refl)
      as [m [E H]]; [intros _; split; reflexivity|].
    exists m. split; [exact E | rewrite H; reflexivity].
  - destruct (pattern_matching "*.txt" "notes.txt.bak" eq_refl eq_refl)
      as [m [E H]]; [intros _; split; reflexivity|].
    exists m. split; [exact E | rewrite H; reflexivity].
  - destruct (pattern_matching "log" "access.log" eq_refl eq_refl)
      as [m [E H]]; [intros E; discriminate E|].
    exists m. split; [exact E | rewrite H; reflexivity].
  - destruct (pattern_matching "log" "LOG.txt" eq_refl eq_refl)
      as [m [E H]]; [intros E; discriminate E|].
    exists m. split; [exact E | rewrite H; reflexivity].
Defined.

(** What [search_files] returns, in terms of the hits of the walk. *)
Lemma search_files_hits (self : TreeVisualizer) (root_path : Path)
    (root : entry) (search_pattern : string) :
  search_files self root_path root search_pattern
  = match compile_pattern search_pattern with
    | None => None
    | Some m =>
        Some (map (hit_result root_path) (search_hits self m [] root 0))
    end.
Proof.
  unfold search_files.
  destruct (compile_pattern search_pattern); [|reflexivity].
  rewrite <- (app_nil_r root_path) at 2. apply search_recursive_hits.
Qed.

(** C9. The search reports hits only: entries with a non-empty path below
    the scan root.  For each of them the test [item != root_path] holds and
    the relative path is the one [relative_to] gives; the branch that names
    the root by its own name is never taken, and no record is made for the
    root, whatever its name. *)
Theorem search_never_reports_root (self : TreeVisualizer) (root_path : Path)
    (root : entry) (search_pattern : string) :
  search_files self root_path root search_pattern
  = match compile_pattern search_pattern with
    | None => None
    | Some m =>
        Some (map (hit_result root_path) (search_hits self m [] root 0))
    end
  /\ forall m h,
       In h (search_hits self m [] root 0) ->
       fst h <> []
       /\ PathOps.eqb (root_path ++ fst h) root_path = false
       /\ make_result root_path (root_path ++ fst h) (snd h)
          = Some (hit_result root_path h)
       /\ r_relative_path (hit_result root_path h) = Str.join "/" (fst h).
Proof.
  split; [apply search_files_hits|].
  intros m h Hh. apply search_hits_below in Hh.
  destruct Hh as [rest [Hrest Hne]]. cbn [app] in Hrest.
  destruct h as [rel item]. cbn [fst snd] in *. subst rest.
  repeat split.
  - assumption.
  - now apply path_below_differs.
  - now apply make_result_below.
  - cbn. now destruct rel.
Qed.

(** The name of the root matches, and nothing is reported. *)
Example search_for_the_root_name :
  search_files default_visualizer ["proj"] proj "proj" = Some [].
Proof. reflexivity. Qed.

Lemma Forall2_map_right {A B : Type} (P : A -> B -> Prop) (f : A -> B)
    (l : list A) :
  (forall x, In x l -> P x (f x)) -> Forall2 P l (map f l).
Proof.
  induction l as [|x l IH]; intros H; cbn [map]; constructor.
  - apply H. now left.
  - apply IH. intros; apply H; now right.
Qed.

(** The number printed for a size lies in the range of the unit. *)
Lemma size_value_range (st_size : N) :
  let k := unit_index st_size in
  let v := size_value st_size in
  ((st_size < 2 ^ 53)%N -> v = st_size)
  /\ (k = 0%nat \/ 1024 ^ N.of_nat k <= v)%N
  /\ (k = 4%nat \/ v < 1024 ^ N.of_nat (S k))%N.
Proof.
  cbv zeta. destruct (unit_index_range st_size) as [_ [Hlo Hhi]].
  cbv zeta in Hlo, Hhi. unfold size_value.
  destruct (N.ltb_spec st_size 1024) as [H0|H0]; [now repeat split|].
  destruct (N.ltb_spec st_size (2 ^ 53)) as [Hs|Hs].
  - rewrite to_double_small by assumption. now repeat split.
  - destruct (to_double_large st_size Hs) as [Hd _].
    split; [lia|].
    assert (Hk : unit_index st_size = 4%nat).
    { destruct Hhi as [Hhi | Hhi]; [assumption|]. exfalso.
      revert Hhi. unfold unit_index.
      destruct (st_size <? 1024)%N;
        [|destruct (st_size <? 1024 ^ 2)%N;
          [|destruct (st_size <? 1024 ^ 3)%N;
            [|destruct (st_size <? 1024 ^ 4)%N]]];
        intros Hhi;
        try change (1024 ^ N.of_nat 1)%N with 1024%N in Hhi;
        try change (1024 ^ N.of_nat 2)%N with 1048576%N in Hhi;
        try change (1024 ^ N.of_nat 3)%N with 1073741824%N in Hhi;
        try change (1024 ^ N.of_nat 4)%N with 1099511627776%N in Hhi;
        try change (1024 ^ N.of_nat 5)%N with 1125899906842624%N in Hhi;
        change (2 ^ 53)%N with 9007199254740992%N in Hs; lia. }
    rewrite Hk. split; [right | now left].
    change (1024 ^ N.of_nat 4)%N with 1099511627776%N.
    change (2 ^ 52)%N with 4503599627370496%N in Hd. lia.
Qed.

(** C6. The records of a search answer, one for one and in order, to the
    encountered entries that pass the filter and match.  The record of a
    regular file carries the text [_get_size] makes of the file's size: the
    size (from 2^53 bytes on, the double nearest to it) over the power of
    1024 of the unit whose range holds it, from B up to TB, written with
    one digit after the point, to the nearest tenth; every other record,
    the directories among them, carries no size.  2048 bytes read "2.0 KB"
    and 500 bytes "500.0 B". *)
Theorem search_result_size (self : TreeVisualizer) (root_path : Path)
    (root : entry) (search_pattern : string) (results : list SearchResult) :
  search_files self root_path root search_pattern = Some results ->
  (exists m,
      compile_pattern search_pattern = Some m
      /\ Forall2
           (fun (h : hit) (r : SearchResult) =>
              r_name r = name (snd h)
              /\ r_path r = PathOps.str (root_path ++ fst h)
              /\ match snd h with
                 | File _ st_size _ =>
                     (st_size < 2 ^ 63)%N ->
                     let k := unit_index st_size in
                     let v := size_value st_size in
                     r_size r
                     = Some (fmt1 v (1024 ^ N.of_nat k)
                             +++ " " +++ unit_name k)
                     /\ (k <= 4)%nat
                     /\ (k = 0%nat \/ 1024 ^ N.of_nat k <= st_size)%N
                     /\ (k = 4%nat \/ st_size < 1024 ^ N.of_nat (S k))%N
                     /\ ((st_size < 2 ^ 53)%N -> v = st_size)
                     /\ ((2 ^ 53 <= st_size)%N ->
                         exists ulp,
                           (0 < ulp /\ ulp * 2 ^ 52 <= st_size
                            /\ 2 * v <= 2 * st_size + ulp
                            /\ 2 * st_size <= 2 * v + ulp)%N)
                     /\ exists tenths,
                          fmt1 v (1024 ^ N.of_nat k)
                          = dec (tenths / 10) +++ "." +++ dec (tenths mod 10)
                          /\ String.length (dec (tenths mod 10)) = 1
                          /\ (2 * tenths * 1024 ^ N.of_nat k
                              <= 2 * (10 * v) + 1024 ^ N.of_nat k
                              /\ 2 * (10 * v)
                                 <= 2 * tenths * 1024 ^ N.of_nat k
                                    + 1024 ^ N.of_nat k)%N
                 | _ => r_size r = None
                 end)
           (filter (wanted self m) (encountered self [] root 0))
           results)
  /\ _get_size 2048 = "2.0 KB"
  /\ _get_size 500 = "500.0 B".
Proof.
  intros Hs. split; [|split; reflexivity].
  rewrite search_files_hits in Hs.
  destruct (compile_pattern search_pattern) as [m|]; [|discriminate].
  injection Hs as <-. exists m. split; [reflexivity|].
  rewrite search_hits_filter. apply Forall2_map_right.
  intros [rel item] _. cbn [fst snd hit_result r_name r_path r_size].
  split; [reflexivity|]. split; [reflexivity|].
  destruct item as [n size t | n t ls | n t]; try reflexivity.
  intros _. cbv zeta. rewrite get_size_unit.
  destruct (unit_index_range size) as [H1 [H2 H3]].
  destruct (size_value_range size) as [H4 _].
  split; [reflexivity|]. repeat split; try assumption.
  - intros Hbig. unfold size_value.
    destruct (N.ltb_spec size 1024) as [Hsmall|_].
    + exfalso. change (2 ^ 53)%N with 9007199254740992%N in Hbig. lia.
    + now destruct (to_double_large size Hbig).
  - apply fmt1_one_decimal. apply N.neq_0_lt_0, N.pow_nonzero. discriminate.
Qed.

Lemma search_result_size_witness :
  exists results,
    search_files default_visualizer ["run"] special_fs "*.txt" = Some results
    /\ map r_size results = [Some "2.0 KB"]
    /\ _get_size 2048 = "2.0 KB".
Proof.
  eexists. split; [reflexivity|]. split; [reflexivity|].
  eapply (search_result_size default_visualizer ["run"] special_fs "*.txt").
  reflexivity.
Defined.

(** * Further properties of the code *)

(** ** The order of the rendered children *)

Lemma ascii_compare_refl (a : ascii) : Ascii.compare a a = Eq.
Proof. unfold Ascii.compare. apply N.compare_refl. Qed.

Lemma string_compare_refl (s : string) : String.compare s s = Eq.
Proof.
  induction s as [|a s IH]; [reflexivity|].
  cbn [String.compare]. now rewrite ascii_compare_refl.
Qed.

Lemma string_leb_refl (s : string) : String.leb s s = true.
Proof. unfold String.leb. now rewrite string_compare_refl. Qed.

Lemma string_leb_trans (s1 s2 s3 : string) :
  String.leb s1 s2 = true -> String.leb s2 s3 = true ->
  String.leb s1 s3 = true.
Proof.
  unfold String.leb. revert s2 s3.
  induction s1 as [|a s1 IH]; intros [|b s2] [|c s3];
    cbn [String.compare]; try easy.
  unfold Ascii.compare.
  destruct (N.compare_spec (N_of_ascii a) (N_of_ascii b)) as [E1|L1|G1];
    destruct (N.compare_spec (N_of_ascii b) (N_of_ascii c)) as [E2|L2|G2];
    destruct (N.compare_spec (N_of_ascii a) (N_of_ascii c)) as [E3|L3|G3];
    try easy; try lia.
  apply IH.
Qed.

Section SortedOrder.
Context {A : Type}.
Variable key : A -> string.

Lemma insert_by_Forall (P : A -> Prop) (x : A) (l : list A) :
  P x -> Forall P l -> Forall P (insert_by key x l).
Proof.
  intros Hx Hl. induction Hl as [|y l Hy Hl IH]; cbn [insert_by].
  - now constructor.
  - destruct (String.leb (key x) (key y)); repeat constructor; assumption.
Qed.

Lemma insert_by_sorted (x : A) (l : list A) :
  StronglySorted (key_le key) l -> StronglySorted (key_le key) (insert_by key x l).
Proof.
  induction 1 as [|y l Hs IH Hy]; cbn [insert_by].
  - repeat constructor.
  - destruct (String.leb (key x) (key y)) eqn:E.
    + constructor; [now constructor|].
      constructor; [exact E|].
      eapply Forall_impl; [|exact Hy].
      intros z Hz. unfold key_le in *. eapply string_leb_trans; eassumption.
    + constructor; [exact IH|].
      apply insert_by_Forall; [|exact Hy].
      unfold key_le. destruct (String.leb_total (key x) (key y)); congruence.
Qed.

Lemma sorted_is_sorted (l : list A) : StronglySorted (key_le key) (sorted key l).
Proof.
  induction l as [|x l IH]; cbn [sorted];
    [constructor | now apply insert_by_sorted].
Qed.

Lemma insert_by_stable (k : string) (x : A) (l : list A) :
  filter (fun e => String.eqb (key e) k) (insert_by key x l)
  = filter (fun e => String.eqb (key e) k) (x :: l).
Proof.
  induction l as [|y l IH]; cbn [insert_by]; [reflexivity|].
  destruct (String.leb (key x) (key y)) eqn:E; [reflexivity|].
  cbn [filter] in *. rewrite IH.
  destruct (String.eqb_spec (key x) k) as [Hx|Hx]; [|reflexivity].
  destruct (String.eqb_spec (key y) k) as [Hy|Hy]; [|reflexivity].
  rewrite Hx, Hy, string_leb_refl in E. discriminate.
Qed.

Lemma sorted_stable (k : string) (l : list A) :
  filter (fun e => String.eqb (key e) k) (sorted key l)
  = filter (fun e => String.eqb (key e) k) l.
Proof.
  induction l as [|x l IH]; cbn [sorted]; [reflexivity|].
  rewrite insert_by_stable. cbn [filter]. now rewrite IH.
Qed.
End SortedOrder.

Lemma Forall_sorted {A : Type} (key : A -> string) (P : A -> Prop)
    (l : list A) :
  Forall P l -> Forall P (sorted key l).
Proof.
  intros H. apply Forall_forall. intros x Hx.
  apply sorted_In in Hx. rewrite Forall_forall in H. now apply H.
Qed.

Lemma tree_rows_entry_below (self : TreeVisualizer) (e : entry)
    here prefix is_last depth (r : row) (e' : entry) :
  In r (tree_rows self e here prefix is_last depth) ->
  row_entry r = Some e' ->
  length here < length (row_path r).
Proof.
  intros Hr Hre.
  assert (Hh : In (row_path r, e')
                  (hits_of_rows (tree_rows self e here prefix is_last depth))).
  { unfold hits_of_rows. apply in_flat_map. exists r.
    split; [assumption|]. rewrite Hre. now left. }
  eapply Permutation_in in Hh; [|apply tree_rows_hits_perm].
  apply filter_In in Hh. destruct Hh as [Hh _].
  apply encountered_depth in Hh. destruct Hh as [k [Hlen _]].
  cbn [fst] in Hlen. lia.
Qed.

Lemma entries_at_level_none (k : nat) (rows : list row) :
  (forall r e, In r rows -> row_entry r = Some e -> k < length (row_path r)) ->
  entries_at_level k rows = [].
Proof.
  unfold entries_at_level. induction rows as [|r rows IH]; intros H;
    [reflexivity|].
  cbn [flat_map]. rewrite IH by (intros; eapply H; [right|]; eassumption).
  destruct (row_entry r) as [e|] eqn:E; [|reflexivity].
  specialize (H r e (or_introl eq_refl) E).
  destruct (Nat.eqb_spec (length (row_path r)) k); [lia | reflexivity].
Qed.

Lemma tree_loop_level (rec : entry -> walker) here prefix is_last depth n :
  forall l i,
    (forall x, In x l -> forall pre b d r e,
        In r (rec x (here ++ [name x]) pre b d) -> row_entry r = Some e ->
        S (length here) < length (row_path r)) ->
    entries_at_level (S (length here))
      (tree_loop (fun e => e) rec here prefix is_last depth n i l)
    = l.
Proof.
  induction l as [|x l IH]; intros i H; [reflexivity|].
  cbn [tree_loop]. unfold entries_at_level in *. cbn [flat_map].
  cbn [row_entry row_path]. rewrite flat_map_app.
  rewrite IH by (intros; eapply H; [right|..]; eassumption).
  rewrite length_app. cbn [length].
  replace (length here + 1) with (S (length here)) by lia.
  rewrite Nat.eqb_refl. cbn [app]. f_equal.
  fold (entries_at_level (S (length here))
          (if is_dir x
           then rec x (here ++ [name x])
                    (if is_last then prefix +++ "    " else prefix +++ "│   ")
                    (Nat.eqb i (n - 1)) (depth + 1)%Z
           else [])).
  rewrite entries_at_level_none; [reflexivity|].
  intros r e Hr Hre. destruct (is_dir x); [|destruct Hr].
  eapply H; [now left | eassumption | eassumption].
Qed.

(** X1. The lines of the children of the scan root come directories first,
    then regular files, each group in ascending order of the lower-case
    names; stated for names of ASCII characters. *)
Theorem rendered_order (self : TreeVisualizer) (root : entry)
    (items : list entry) :
  iterdir root = Some items ->
  too_deep self 0 = false ->
  Forall (fun e => is_ascii (name e) = true) items ->
  exists dirs files,
    entries_at_level 1 (tree_rows self root [] "" true 0) = dirs ++ files
    /\ Forall (fun e => is_dir e = true) dirs
    /\ Forall (fun e => is_file e = true) files
    /\ StronglySorted
         (fun a b => String.leb (Str.lower (name a)) (Str.lower (name b))
                     = true) dirs
    /\ StronglySorted
         (fun a b => String.leb (Str.lower (name a)) (Str.lower (name b))
                     = true) files.
Proof.
  intros Hls Hdeep _.
  exists (sorted lower_name
            (filter is_dir
               (filter (fun item => negb (should_exclude self (name item)))
                       items))).
  exists (sorted lower_name
            (filter is_file
               (filter (fun item => negb (should_exclude self (name item)))
                       items))).
  split; [|split; [|split; [|split]]].
  - rewrite tree_rows_eq, Hdeep, Hls.
    apply (tree_loop_level (tree_rows self) []).
    intros x Hx pre b d r e Hr Hre.
    apply (tree_rows_entry_below self x _ _ _ _ r e Hr Hre).
  - apply Forall_sorted, Forall_forall. intros x Hx.
    now apply filter_In in Hx.
  - apply Forall_sorted, Forall_forall. intros x Hx.
    now apply filter_In in Hx.
  - apply (sorted_is_sorted lower_name).
  - apply (sorted_is_sorted lower_name).
Qed.

Lemma rendered_order_witness :
  entries_at_level 1 (tree_rows default_visualizer proj [] "" true 0)
  = [Dir "src" None (Some [File "main.py" 0 None]); File "README.md" 0 None]
  /\ exists dirs files,
       entries_at_level 1 (tree_rows default_visualizer proj [] "" true 0)
       = dirs ++ files
       /\ Forall (fun e => is_dir e = true) dirs.
Proof.
  split; [reflexivity|].
  destruct (rendered_order default_visualizer proj
              [ Dir ".git" None (Some []);
                Dir "src" None (Some [File "main.py" 0 None]);
                File "README.md" 0 None ])
    as [dirs [files [H1 [H2 _]]]].
  - reflexivity.
  - reflexivity.
  - repeat constructor.
  - exists dirs, files. now split.
Defined.

(** X2. The sort is stable: among the rendered children, those whose names
    agree up to case come in the order of the listing, directories
    first. *)
Theorem rendered_order_stable (self : TreeVisualizer) (items : list entry)
    (k : string) :
  let same e := String.eqb (Str.lower (name e)) k in
  let kept_items :=
    filter (fun item => negb (should_exclude self (name item))) items in
  filter same (sorted_items_of self items)
  = filter same (filter is_dir kept_items)
    ++ filter same (filter is_file kept_items).
Proof.
  cbv zeta. unfold sorted_items_of. rewrite filter_app.
  now rewrite !(sorted_stable lower_name).
Qed.

(** ** The two walks side by side *)

(** X3. A directory or a regular file is reported by the search exactly
    when it has a line in the tree and its name matches: the two walks see
    the same entries. *)
Theorem search_agrees_with_tree (self : TreeVisualizer) (root : entry)
    (m : matcher) (h : hit) :
  is_dir (snd h) = true \/ is_file (snd h) = true ->
  (In h (search_hits self m [] root 0)
   <-> In h (tree_entries self root)
       /\ name_matches m (name (snd h)) = true).
Proof.
  intros Hkind.
  rewrite search_hits_encountered, tree_entries_encountered.
  unfold wanted, shown. rewrite !andb_true_iff, orb_true_iff. tauto.
Qed.

Lemma search_agrees_with_tree_witness :
  In (["src"; "main.py"], File "main.py" 0 None)
     (search_hits default_visualizer (Literal "main") [] proj 0).
Proof.
  apply (search_agrees_with_tree default_visualizer proj (Literal "main")
           (["src"; "main.py"], File "main.py" 0 None)).
  - right. reflexivity.
  - split; [|reflexivity]. vm_compute. right. left. reflexivity.
Defined.

(** ** Raising the depth bound *)

Lemma subseq_refl {A : Type} (l : list A) : subseq l l.
Proof. induction l; now constructor. Qed.

Lemma subseq_app {A : Type} (a b c d : list A) :
  subseq a b -> subseq c d -> subseq (a ++ c) (b ++ d).
Proof. induction 1; intros Hcd; cbn [app]; try now constructor; auto.
  induction l as [|y l IH]; [assumption | now constructor]. Qed.

Lemma subseq_map {A B : Type} (f : A -> B) (l1 l2 : list A) :
  subseq l1 l2 -> subseq (map f l1) (map f l2).
Proof. induction 1; cbn [map]; now constructor. Qed.

Lemma too_deep_mono (self : TreeVisualizer) (md md' : option Z) (depth : Z) :
  at_least_as_deep md md' ->
  too_deep (set_max_depth self md) depth = false ->
  too_deep (set_max_depth self md') depth = false.
Proof.
  unfold too_deep. cbn [set_max_depth max_depth].
  destruct md as [d|], md' as [d'|]; cbn; try easy. lia.
Qed.

Lemma tree_loop_subseq (rec1 rec2 : entry -> walker)
    here prefix is_last depth n :
  forall l i,
    (forall x, In x l -> forall p pre b d,
        subseq (rec1 x p pre b d) (rec2 x p pre b d)) ->
    subseq (tree_loop (fun e => e) rec1 here prefix is_last depth n i l)
           (tree_loop (fun e => e) rec2 here prefix is_last depth n i l).
Proof.
  induction l as [|x l IH]; intros i H; cbn [tree_loop]; [constructor|].
  apply subseq_keep, subseq_app; [|apply IH; intros; apply H; now right].
  destruct (is_dir x); [apply H; now left | constructor].
Qed.

Lemma tree_rows_deeper (self : TreeVisualizer) (md md' : option Z)
    (e : entry) :
  at_least_as_deep md md' ->
  forall here prefix is_last depth,
    subseq (tree_rows (set_max_depth self md) e here prefix is_last depth)
           (tree_rows (set_max_depth self md') e here prefix is_last depth).
Proof.
  intros Hd.
  induction e as [n size t | n t | n t | n t items IH]
    using entry_nested_ind; intros here prefix is_last depth;
    rewrite !tree_rows_eq;
    destruct (too_deep (set_max_depth self md) depth) eqn:E;
    try constructor;
    rewrite (too_deep_mono self md md' depth Hd E);
    try apply subseq_refl.
  rewrite Forall_forall in IH. cbn [iterdir].
  change (sorted_items_of (set_max_depth self md') items)
    with (sorted_items_of (set_max_depth self md) items).
  apply tree_loop_subseq. intros x Hx *. apply IH.
  apply sorted_items_of_In in Hx. tauto.
Qed.

Lemma hits_loop_subseq (self1 self2 : TreeVisualizer) (m : matcher)
    (rec1 rec2 : list string -> entry -> Z -> list hit) here depth items :
  (forall n, should_exclude self1 n = should_exclude self2 n) ->
  (forall x, In x items -> forall p d, subseq (rec1 p x d) (rec2 p x d)) ->
  subseq (hits_loop self1 m rec1 here depth items)
         (hits_loop self2 m rec2 here depth items).
Proof.
  intros Hex. induction items as [|x l IH]; intros H; cbn [hits_loop];
    [constructor|].
  rewrite <- Hex.
  destruct (should_exclude self1 (name x)).
  - apply IH. intros; apply H; now right.
  - apply subseq_app; [apply subseq_refl|].
    apply subseq_app; [|apply IH; intros; apply H; now right].
    destruct (is_dir x); [apply H; now left | constructor].
Qed.

Lemma search_hits_deeper (self : TreeVisualizer) (m : matcher)
    (md md' : option Z) (e : entry) :
  at_least_as_deep md md' ->
  forall here depth,
    subseq (search_hits (set_max_depth self md) m here e depth)
           (search_hits (set_max_depth self md') m here e depth).
Proof.
  intros Hd.
  induction e as [n size t | n t | n t | n t items IH]
    using entry_nested_ind; intros here depth;
    rewrite !search_hits_eq;
    destruct (too_deep (set_max_depth self md) depth) eqn:E;
    try constructor;
    rewrite (too_deep_mono self md md' depth Hd E);
    try apply subseq_refl.
  rewrite Forall_forall in IH. cbn [iterdir].
  apply hits_loop_subseq; [reflexivity|].
  intros x Hx p d. now apply IH.
Qed.

(** X4. A larger depth bound, or none, only adds to the outputs: the lines
    and the records under the smaller bound are among those under the
    larger one, in the same order and unchanged. *)
Theorem deeper_bound_only_adds (self : TreeVisualizer) (md md' : option Z)
    (root : entry) (m : matcher) (root_path : Path) :
  at_least_as_deep md md' ->
  subseq (get_tree_lines (set_max_depth self md) root "" true 0)
         (get_tree_lines (set_max_depth self md') root "" true 0)
  /\ exists results results',
       search_recursive (set_max_depth self md) m root_path root_path root 0
       = Some results
       /\ search_recursive (set_max_depth self md') m root_path root_path
                           root 0
          = Some results'
       /\ subseq results results'.
Proof.
  intros Hd. split.
  - apply subseq_map. now apply tree_rows_deeper.
  - pose proof (search_recursive_hits (set_max_depth self md) m root_path
                  root [] 0) as H1.
    pose proof (search_recursive_hits (set_max_depth self md') m root_path
                  root [] 0) as H2.
    rewrite app_nil_r in H1, H2.
    eexists. eexists. split; [exact H1|]. split; [exact H2|].
    apply subseq_map. now apply search_hits_deeper.
Qed.

Lemma deeper_bound_only_adds_witness :
  subseq (get_tree_lines (set_max_depth default_visualizer (Some 0%Z)) proj
                         "" true 0)
         (get_tree_lines (set_max_depth default_visualizer None) proj
                         "" true 0).
Proof.
  apply (deeper_bound_only_adds default_visualizer (Some 0%Z) None proj
           (Literal "main") ["proj"]).
  exact I.
Defined.

(** ** The shape of the lines *)

Lemma indent_of_app (bars : list bool) (b : bool) :
  indent_of (bars ++ [b])
  = indent_of bars +++ (if b then "│   " else "    ").
Proof.
  induction bars as [|c bars IH]; cbn [app indent_of].
  - now destruct b.
  - now rewrite IH, append_assoc.
Qed.

Lemma tree_loop_indent (rec : entry -> walker) here bars is_last depth n :
  length bars = length here ->
  forall l i,
    (forall x, In x l -> forall bars' p b d r,
        length bars' = length p ->
        In r (rec x p (indent_of bars') b d) -> well_indented r) ->
    forall r,
      In r (tree_loop (fun e => e) rec here (indent_of bars) is_last depth
                      n i l) ->
      well_indented r.
Proof.
  intros Hlen. induction l as [|x l IH]; intros i H r; cbn [tree_loop];
    [intros []|].
  intros [<- | Hr].
  - unfold well_indented. cbn [row_entry row_path row_line].
    exists bars. eexists. split; [rewrite length_app; cbn; lia|].
    split; [|split; [reflexivity | apply last_last]].
    destruct is_last, (Nat.eqb i (n - 1)); auto.
  - apply in_app_iff in Hr. destruct Hr as [Hr | Hr].
    + destruct (is_dir x); [|destruct Hr].
      revert Hr.
      replace (if is_last then indent_of bars +++ "    "
               else indent_of bars +++ "│   ")
        with (indent_of (bars ++ [negb is_last]))
        by (rewrite indent_of_app; now destruct is_last).
      apply H; [now left|]. rewrite !length_app. cbn. lia.
    + revert Hr. apply IH. intros; eapply H; [right|..]; eassumption.
Qed.

Lemma tree_rows_indent (self : TreeVisualizer) (e : entry) :
  forall bars here is_last depth r,
    length bars = length here ->
    In r (tree_rows self e here (indent_of bars) is_last depth) ->
    well_indented r.
Proof.
  induction e as [n size t | n t | n t | n t items IH]
    using entry_nested_ind; intros bars here is_last depth r Hlen;
    rewrite tree_rows_eq; (destruct (too_deep self depth); [intros []|]);
    cbn [iterdir].
  1-3: intros [<- | []]; exists bars; now split.
  rewrite Forall_forall in IH.
  apply tree_loop_indent; [assumption|].
  intros x Hx bars' p b d r' Hlen'. apply IH; [|assumption].
  apply sorted_items_of_In in Hx. tauto.
Qed.

(** X5. Every line of the tree is made of indentation, a connector and a
    name: the line of an entry that lies [k] directories under the root
    carries [k] units of indentation (four spaces, or a bar and three
    spaces), then a tee or a corner, then the name of the entry; a
    placeholder carries the indentation of the children it stands for and
    the corner. *)
Theorem line_shape (self : TreeVisualizer) (root : entry) (r : row) :
  In r (tree_rows self root [] "" true 0) -> well_indented r.
Proof. apply (tree_rows_indent self root [] []). reflexivity. Qed.

Lemma line_shape_witness :
  well_indented {| row_line := "    ├── main.py";
                   row_path := ["src"; "main.py"];
                   row_entry := Some (File "main.py" 0 None) |}.
Proof.
  apply (line_shape default_visualizer proj).
  vm_compute. right. left. reflexivity.
Defined.

(** ** Letter case *)

(** X6. Matching ignores letter case on both sides: two patterns that are
    equal up to case prepare the same matcher, and a matcher cannot tell
    two names apart that are equal up to case. *)
Theorem matching_ignores_case (pattern pattern' item_name item_name' : string) :
  Str.lower pattern = Str.lower pattern' ->
  Str.lower item_name = Str.lower item_name' ->
  compile_pattern pattern = compile_pattern pattern'
  /\ forall m, name_matches m item_name = name_matches m item_name'.
Proof.
  intros Hp Hn. split.
  - unfold compile_pattern.
    destruct (lower_has_wildcard pattern) as [<- <-].
    destruct (lower_has_wildcard pattern') as [<- <-].
    now rewrite Hp.
  - intros m. unfold name_matches. now rewrite Hn.
Qed.

Lemma matching_ignores_case_witness :
  compile_pattern "*.TXT" = compile_pattern "*.txt"
  /\ forall m, name_matches m "Notes.Txt" = name_matches m "NOTES.TXT".
Proof.
  apply (matching_ignores_case "*.TXT" "*.txt" "Notes.Txt" "NOTES.TXT");
    reflexivity.
Defined.

(** ** The number in a size *)

(** X7. For a size below 2^63 bytes the number [_get_size] prints is the
    size (from 2^53 bytes on, the double nearest to it) over the power of
    1024 of its unit, rounded to tenths, and it stays in range: at least
    1.0 from KB upwards and at most 1024.0 below TB (sizes just under a
    power of 1024 round up to 1024.0 of the smaller unit). *)
Theorem size_number_range (st_size : N) :
  (st_size < 2 ^ 63)%N ->
  let k := unit_index st_size in
  let tenths :=
    round_half_even (10 * size_value st_size) (1024 ^ N.of_nat k) in
  _get_size st_size
  = (dec (tenths / 10) +++ "." +++ dec (tenths mod 10))
    +++ " " +++ unit_name k
  /\ ((1 <= k)%nat -> (10 <= tenths)%N)
  /\ ((k <= 3)%nat -> (tenths <= 10240)%N).
Proof.
  intros _. cbv zeta. split; [apply get_size_unit|].
  pose proof (round_half_even_nearest (10 * size_value st_size)
                (1024 ^ N.of_nat (unit_index st_size))) as Hn.
  cbv zeta in Hn.
  destruct (size_value_range st_size) as [_ [Hlo Hhi]]. cbv zeta in Hlo, Hhi.
  revert Hn Hlo Hhi.
  generalize (round_half_even (10 * size_value st_size)
                (1024 ^ N.of_nat (unit_index st_size))).
  generalize (size_value st_size).
  unfold unit_index.
  destruct (st_size <? 1024)%N;
    [|destruct (st_size <? 1024 ^ 2)%N;
      [|destruct (st_size <? 1024 ^ 3)%N;
        [|destruct (st_size <? 1024 ^ 4)%N]]];
    intros v t Hn Hlo Hhi;
    try change (1024 ^ N.of_nat 0)%N with 1%N in *;
    try change (1024 ^ N.of_nat 1)%N with 1024%N in *;
    try change (1024 ^ N.of_nat 2)%N with 1048576%N in *;
    try change (1024 ^ N.of_nat 3)%N with 1073741824%N in *;
    try change (1024 ^ N.of_nat 4)%N with 1099511627776%N in *;
    specialize (Hn ltac:(lia)); split; intros Hk; lia.
Qed.

Lemma size_number_range_witness :
  _get_size 1048575 = "1024.0 KB"
  /\ (round_half_even (10 * size_value 1048575) (1024 ^ 1) <= 10240)%N.
Proof.
  split; [reflexivity|].
  apply (size_number_range 1048575); [reflexivity|]. vm_compute. lia.
Defined.

(** ** The exclude field of the window *)

Lemma gui_exclude_patterns_nonempty (text p : string) :
  In p (gui_exclude_patterns text) -> p <> EmptyString.
Proof.
  unfold gui_exclude_patterns. rewrite in_map_iff.
  intros [q [<- Hq]]. apply filter_In in Hq. destruct Hq as [_ Hq].
  now destruct (strip q).
Qed.

(** X8. Whatever the exclude field holds, the visualizer built from it has
    at least one exclude pattern and no empty one, so no name is excluded
    for containing the empty text; and a field whose pieces between commas
    are all blank leaves the five default patterns in force: the field
    cannot switch exclusion off. *)
Theorem exclude_field (show_hidden_var : bool) (max_depth : option Z)
    (exclude_var : string) :
  let v := gui_visualizer show_hidden_var max_depth exclude_var in
  exclude_patterns v <> []
  /\ (forall p, In p (exclude_patterns v) -> p <> EmptyString)
  /\ ((forall piece, In piece (split "," exclude_var) ->
                     strip piece = EmptyString) ->
      exclude_patterns v = default_exclude_patterns).
Proof.
  cbv zeta. unfold gui_visualizer, init. cbn [exclude_patterns].
  split; [|split].
  - destruct (gui_exclude_patterns exclude_var); discriminate.
  - intros p.
    destruct (gui_exclude_patterns exclude_var) as [|q l] eqn:E.
    + intros Hp. repeat (destruct Hp as [<- | Hp]; [discriminate|]).
      destruct Hp.
    + rewrite <- E. apply gui_exclude_patterns_nonempty.
  - intros Hblank.
    assert (E : gui_exclude_patterns exclude_var = []); [|now rewrite E].
    unfold gui_exclude_patterns.
    induction (split "," exclude_var) as [|q l IH]; [reflexivity|].
    cbn [filter]. rewrite (Hblank q) by now left. cbn [is_empty negb].
    apply IH. intros; apply Hblank; now right.
Qed.

Lemma exclude_field_witness :
  exclude_patterns (gui_visualizer true None " , ,") = default_exclude_patterns
  /\ gui_exclude_patterns ".git, __pycache__, node_modules"
     = [".git"; "__pycache__"; "node_modules"].
Proof.
  split; [|reflexivity].
  apply (exclude_field true None " , ,").
  intros piece H. repeat (destruct H as [<- | H]; [reflexivity|]).
  destruct H.
Defined.

(** ** What the progress events add up to *)

Lemma search_progress_eq (self : TreeVisualizer) (current : entry)
    (depth : Z) :
  search_progress self current depth
  = if too_deep self depth then []
    else
      match iterdir current with
      | None => []
      | Some items =>
          length items
          :: search_progress_loop self (search_progress self) depth items
      end.
Proof.
  destruct current as [n size t | n t [items|] | n t]; simpl;
    destruct (too_deep self depth); reflexivity.
Qed.

Lemma list_sum_flat_map {A : Type} (f : A -> list nat) (l : list A) :
  list_sum (flat_map f l) = sum_over (fun x => list_sum (f x)) l.
Proof.
  induction l as [|x l IH]; cbn [flat_map sum_over]; [reflexivity|].
  now rewrite list_sum_app, IH.
Qed.

Lemma sum_over_ext {A : Type} (f g : A -> nat) (l : list A) :
  (forall x, In x l -> f x = g x) -> sum_over f l = sum_over g l.
Proof.
  induction l as [|x l IH]; intros H; cbn [sum_over]; [reflexivity|].
  rewrite (H x) by now left. f_equal. apply IH. intros; apply H; now right.
Qed.

Lemma listed_loop_kept_length (self : TreeVisualizer)
    (rec : list string -> entry -> Z -> list hit) here depth items :
  length (filter (kept self) (listed_loop self rec here depth items))
  = progress_count self items
    + sum_over
        (fun x =>
           if rendered self x
           then (if is_dir x
                 then length (filter (kept self)
                                     (rec (here ++ [name x]) x (depth + 1)%Z))
                 else 0)
           else 0)
        items.
Proof.
  unfold progress_count.
  induction items as [|x l IH]; [reflexivity|].
  cbn [listed_loop filter sum_over]. unfold kept at 1.
  change (rendered self x)
    with (negb (should_exclude self (name x)) && (is_dir x || is_file x)).
  cbn [snd].
  destruct (should_exclude self (name x));
    cbn [negb andb app length]; rewrite ?filter_app, ?length_app, IH.
  - lia.
  - destruct x as [n size t | n t ls | n t];
      cbn [is_dir is_file orb filter length]; lia.
Qed.

Lemma search_progress_loop_sum (self : TreeVisualizer)
    (rec : entry -> Z -> list nat)
    (rec' : list string -> entry -> Z -> list hit) here depth items :
  (forall x, In x items -> forall p d,
      list_sum (rec x d) = length (rec' p x d)) ->
  length items + list_sum (search_progress_loop self rec depth items)
  = length (listed_loop self rec' here depth items).
Proof.
  induction items as [|x l IH]; intros H; [reflexivity|].
  cbn [search_progress_loop listed_loop length].
  rewrite list_sum_app, length_app, <- IH by (intros; apply H; now right).
  destruct (should_exclude self (name x));
    cbn [negb andb list_sum fold_right length]; [lia|].
  destruct (is_dir x); [rewrite (H x (or_introl eq_refl) (here ++ [name x]))|];
    cbn [list_sum fold_right length]; lia.
Qed.

(** X9. The counts that the search puts on the queue add up to the number
    of entries its walk encounters, excluded ones included: the count of a
    directory is taken before the filter. *)
Theorem search_progress_total (self : TreeVisualizer) (root : entry) :
  forall here depth,
    list_sum (search_progress self root depth)
    = length (encountered self here root depth).
Proof.
  induction root as [n size t | n t | n t | n t items IH]
    using entry_nested_ind; intros here depth;
    rewrite search_progress_eq, encountered_eq; simpl;
    destruct (too_deep self depth); try reflexivity.
  rewrite Forall_forall in IH.
  change (list_sum (length items :: ?l)) with (length items + list_sum l).
  apply search_progress_loop_sum. intros x Hx p d. now apply IH.
Qed.

(** X10. The counts that the tree builder puts on the queue add up to the
    number of encountered entries that pass the filter, rendered or not:
    the count of a directory is taken after the filter and before the
    split into directories and files. *)
Theorem tree_progress_total (self : TreeVisualizer) (root : entry) :
  forall here depth,
    list_sum (tree_progress self root depth)
    = length (filter (kept self) (encountered self here root depth)).
Proof.
  induction root as [n size t | n t | n t | n t items IH]
    using entry_nested_ind; intros here depth;
    rewrite tree_progress_eq, encountered_eq; cbn [iterdir];
    destruct (too_deep self depth); try reflexivity.
  rewrite Forall_forall in IH.
  rewrite listed_loop_kept_length.
  change (list_sum (progress_count self items :: ?l))
    with (progress_count self items + list_sum l).
  f_equal. rewrite list_sum_flat_map.
  rewrite (sum_over_perm _ _ _ (sorted_items_of_perm self items)).
  rewrite sum_over_filter. apply sum_over_ext. intros x Hx.
  destruct (rendered self x); [|reflexivity].
  destruct (is_dir x); [|reflexivity]. now apply IH.
Qed.

(** ** The paths in the records *)

Lemma listed_loop_last (self : TreeVisualizer)
    (rec : list string -> entry -> Z -> list hit) here depth items :
  (forall x, In x items -> forall p d h, In h (rec p x d) ->
      exists pre, fst h = pre ++ [name (snd h)]) ->
  forall h, In h (listed_loop self rec here depth items) ->
    exists pre, fst h = pre ++ [name (snd h)].
Proof.
  induction items as [|x l IH]; intros H h; cbn [listed_loop]; [intros []|].
  intros [<- | Hh]; [now exists here|].
  apply in_app_iff in Hh. destruct Hh as [Hh | Hh].
  - destruct (negb (should_exclude self (name x)) && is_dir x);
      [|destruct Hh].
    eapply H; [now left | eassumption].
  - revert Hh. apply IH. intros; eapply H; [right|]; eassumption.
Qed.

(** The last component of the path of an encountered entry is its name. *)
Lemma encountered_last (self : TreeVisualizer) (e : entry) :
  forall here depth h,
    In h (encountered self here e depth) ->
    exists pre, fst h = pre ++ [name (snd h)].
Proof.
  induction e as [n size t | n t | n t | n t items IH]
    using entry_nested_ind; intros here depth h;
    rewrite encountered_eq; cbn [iterdir];
    destruct (too_deep self depth); try (intros []).
  rewrite Forall_forall in IH.
  apply listed_loop_last. intros x Hx p d h'. now apply IH.
Qed.

Lemma join_app (sep : string) (a b : list string) :
  a <> [] -> b <> [] ->
  Str.join sep (a ++ b) = Str.join sep a +++ sep +++ Str.join sep b.
Proof.
  unfold Str.join. intros Ha Hb.
  induction a as [|x a IH]; [congruence|].
  destruct a as [|y a].
  - destruct b; [congruence | reflexivity].
  - cbn [app String.concat] in *. rewrite IH by discriminate.
    now rewrite !append_assoc.
Qed.

(** X11. In every record of a search the absolute path is the path of the
    scan root, a slash, and the relative path of the record (for the
    file-system root, the slash and the relative path), and the relative
    path ends in the name of the record: joining the folder with the
    relative path, as the window does to open a result, leads back to the
    entry. *)
Theorem result_paths (self : TreeVisualizer) (root_path : Path)
    (root : entry) (search_pattern : string) (results : list SearchResult)
    (r : SearchResult) :
  search_files self root_path root search_pattern = Some results ->
  In r results ->
  r_path r
  = match root_path with
    | [] => "/"
    | _ => PathOps.str root_path +++ "/"
    end +++ r_relative_path r
  /\ exists parent,
       r_relative_path r = parent +++ r_name r
       /\ (parent = EmptyString
           \/ exists dirs, dirs <> [] /\ parent = Str.join "/" dirs +++ "/").
Proof.
  intros Hs Hr. rewrite search_files_hits in Hs.
  destruct (compile_pattern search_pattern) as [m|]; [|discriminate].
  injection Hs as <-.
  apply in_map_iff in Hr. destruct Hr as [[rel item] [<- Hh]].
  apply search_hits_encountered in Hh. destruct Hh as [Hh _].
  apply encountered_last in Hh. destruct Hh as [pre Hrel].
  cbn [fst snd] in Hrel. subst rel.
  cbn [hit_result r_path r_relative_path r_name].
  assert (Hne : pre ++ [name item] <> []) by now destruct pre.
  assert (Hrel : PathOps.str_rel (pre ++ [name item])
                 = Str.join "/" (pre ++ [name item])).
  { unfold PathOps.str_rel. now destruct (pre ++ [name item]). }
  rewrite Hrel. split.
  - unfold PathOps.str. destruct root_path as [|c root_path];
      [reflexivity|].
    rewrite join_app by (assumption || discriminate).
    now rewrite !append_assoc.
  - destruct pre as [|d pre].
    + exists EmptyString. split; [reflexivity | now left].
    + exists (Str.join "/" (d :: pre) +++ "/"). split.
      * rewrite join_app by discriminate. now rewrite append_assoc.
      * right. exists (d :: pre). split; [discriminate | reflexivity].
Qed.

Lemma result_paths_witness :
  exists r,
    search_files default_visualizer ["home"; "proj"] proj "*.py" = Some [r]
    /\ r_path r = "/home/proj/src/main.py"
    /\ r_path r = (PathOps.str ["home"; "proj"] +++ "/") +++ r_relative_path r.
Proof.
  eexists. split; [reflexivity|]. split; [reflexivity|].
  eapply (result_paths default_visualizer ["home"; "proj"] proj "*.py");
    [reflexivity | left; reflexivity].
Defined.

(** ** Excluding less *)

Lemma listed_loop_incl (self1 self2 : TreeVisualizer)
    (rec1 rec2 : list string -> entry -> Z -> list hit) here depth items :
  (forall n, should_exclude self2 n = true -> should_exclude self1 n = true) ->
  (forall x, In x items -> forall p d h,
      In h (rec1 p x d) -> In h (rec2 p x d)) ->
  forall h, In h (listed_loop self1 rec1 here depth items) ->
            In h (listed_loop self2 rec2 here depth items).
Proof.
  intros Hex. induction items as [|x l IH]; intros H h; cbn [listed_loop];
    [intros []|].
  intros [<- | Hh]; [now left|]. right.
  apply in_app_iff in Hh. apply in_app_iff. destruct Hh as [Hh | Hh].
  - left. destruct (should_exclude self1 (name x)) eqn:E1;
      [destruct Hh|].
    destruct (should_exclude self2 (name x)) eqn:E2;
      [apply Hex in E2; congruence|].
    cbn [negb andb] in *. destruct (is_dir x); [|destruct Hh].
    apply H; [now left | assumption].
  - right. revert Hh. apply IH. intros; eapply H; [right|]; eassumption.
Qed.

Lemma encountered_incl (self1 self2 : TreeVisualizer) (e : entry) :
  max_depth self1 = max_depth self2 ->
  (forall n, should_exclude self2 n = true -> should_exclude self1 n = true) ->
  forall here depth h,
    In h (encountered self1 here e depth) ->
    In h (encountered self2 here e depth).
Proof.
  intros Hmd Hex.
  assert (Hdeep : forall d, too_deep self1 d = too_deep self2 d)
    by (intros d; unfold too_deep; now rewrite Hmd).
  induction e as [n size t | n t | n t | n t items IH]
    using entry_nested_ind; intros here depth h;
    rewrite !encountered_eq, Hdeep; cbn [iterdir];
    destruct (too_deep self2 depth); try (intros []).
  rewrite Forall_forall in IH.
  apply listed_loop_incl; [assumption|].
  intros x Hx p d h'. now apply IH.
Qed.

(** X12. Excluding less never loses an entry: if every name that a second
    configuration excludes is excluded by the first, under the same depth
    bound, then every entry of the tree and every hit of the search under
    the first is one under the second.  Showing hidden files, other options
    unchanged, is such a second configuration. *)
Theorem excluding_less_keeps_entries (self1 self2 : TreeVisualizer)
    (root : entry) (m : matcher) (h : hit) :
  max_depth self1 = max_depth self2 ->
  (forall n, should_exclude self2 n = true -> should_exclude self1 n = true) ->
  (In h (tree_entries self1 root) -> In h (tree_entries self2 root))
  /\ (In h (search_hits self1 m [] root 0) ->
      In h (search_hits self2 m [] root 0)).
Proof.
  intros Hmd Hex.
  assert (Hkept : kept self1 h = true -> kept self2 h = true).
  { unfold kept. rewrite !negb_true_iff. intros H1.
    destruct (should_exclude self2 (name (snd h))) eqn:E; [|reflexivity].
    apply Hex in E. congruence. }
  split; intros H.
  - apply tree_entries_encountered in H. destruct H as [Hin Hs].
    apply tree_entries_encountered. split.
    + now apply (encountered_incl self1 self2).
    + unfold shown in *. apply andb_true_iff in Hs. destruct Hs as [Hk Hkind].
      now rewrite (Hkept Hk).
  - apply search_hits_encountered in H. destruct H as [Hin Hs].
    apply search_hits_encountered. split.
    + now apply (encountered_incl self1 self2).
    + unfold wanted in *. apply andb_true_iff in Hs. destruct Hs as [Hk Hm].
      now rewrite (Hkept Hk).
Qed.

Lemma excluding_less_keeps_entries_witness :
  In (["README.md"], File "README.md" 0 None)
     (tree_entries (init true None None) proj).
Proof.
  apply (excluding_less_keeps_entries default_visualizer (init true None None)
           proj (Literal "main") (["README.md"], File "README.md" 0 None)).
  - reflexivity.
  - intros n. unfold should_exclude. cbn [show_hidden init negb andb
      default_visualizer exclude_patterns].
    intros ->. now destruct (Str.startswith n ".").
  - vm_compute. right. right. left. reflexivity.
Defined.

(** ** Characters that the lines do not hold *)

Lemma has_char_app (c : ascii) (a b : string) :
  Str.has_char c (a +++ b) = Str.has_char c a || Str.has_char c b.
Proof.
  induction a as [|d a IH]; cbn [String.append Str.has_char];
    [reflexivity|].
  now rewrite IH, orb_assoc.
Qed.

Lemma contains_char (c : ascii) (s : string) :
  Str.has_char c s = false -> Str.contains (String c EmptyString) s = false.
Proof.
  intros H. destruct (Str.contains (String c "") s) eqn:E; [|reflexivity].
  apply contains_spec in E. destruct E as [a [b ->]].
  rewrite !has_char_app in H. cbn [Str.has_char] in H.
  rewrite Ascii.eqb_refl, orb_true_r in H. discriminate.
Qed.

Lemma decoration_parts (c : ascii) :
  decoration_free c = true ->
  Str.has_char c "│   " = false /\ Str.has_char c "    " = false
  /\ Str.has_char c "└── " = false /\ Str.has_char c "├── " = false
  /\ Str.has_char c "└── [Permission Denied]" = false.
Proof.
  destruct c as [[] [] [] [] [] [] [] []]; intros H; vm_compute in H;
    try discriminate H; repeat split; reflexivity.
Qed.

Lemma indent_free (c : ascii) (bars : list bool) :
  decoration_free c = true -> Str.has_char c (indent_of bars) = false.
Proof.
  intros H. destruct (decoration_parts c H) as [H1 [H2 _]].
  induction bars as [|b bars IH]; [reflexivity|].
  cbn [indent_of]. rewrite has_char_app, IH.
  now destruct b; rewrite ?H1, ?H2.
Qed.

Lemma names_free_child (c : ascii) (n : string) (t : option string)
    (items : list entry) (x : entry) :
  names_free c (Dir n t (Some items)) = true -> In x items ->
  Str.has_char c (name x) = false /\ names_free c x = true.
Proof.
  cbn [names_free]. induction items as [|y l IH]; [intros _ []|].
  intros H Hin. apply andb_true_iff in H. destruct H as [H Hl].
  apply andb_true_iff in H. destruct H as [Hy Hy'].
  destruct Hin as [<- | Hin]; [|now apply IH].
  split; [now apply negb_true_iff | assumption].
Qed.

Lemma listed_loop_names_free (c : ascii) (self : TreeVisualizer)
    (rec : list string -> entry -> Z -> list hit) here depth items :
  (forall x, In x items -> Str.has_char c (name x) = false) ->
  (forall x, In x items -> forall p d h, In h (rec p x d) ->
      Str.has_char c (name (snd h)) = false) ->
  forall h, In h (listed_loop self rec here depth items) ->
    Str.has_char c (name (snd h)) = false.
Proof.
  induction items as [|x l IH]; intros Hn H h; cbn [listed_loop];
    [intros []|].
  intros [<- | Hh]; [apply Hn; now left|].
  apply in_app_iff in Hh. destruct Hh as [Hh | Hh].
  - destruct (negb (should_exclude self (name x)) && is_dir x);
      [|destruct Hh].
    eapply H; [now left | eassumption].
  - revert Hh. apply IH.
    + intros; apply Hn; now right.
    + intros; eapply H; [right|]; eassumption.
Qed.

Lemma encountered_names_free (c : ascii) (self : TreeVisualizer) (e : entry) :
  names_free c e = true ->
  forall here depth h,
    In h (encountered self here e depth) ->
    Str.has_char c (name (snd h)) = false.
Proof.
  induction e as [n size t | n t | n t | n t items IH]
    using entry_nested_ind; intros Hfree here depth h;
    rewrite encountered_eq; cbn [iterdir];
    destruct (too_deep self depth); try (intros []).
  rewrite Forall_forall in IH.
  apply listed_loop_names_free.
  - intros x Hx. now apply (names_free_child c n t items x).
  - intros x Hx p d h'. apply IH; [assumption|].
    now apply (names_free_child c n t items x).
Qed.

(** A character that is in no name and in no decoration is in no line of
    the tree. *)
Lemma tree_lines_free (c : ascii) (self : TreeVisualizer) (root : entry)
    (line : string) :
  decoration_free c = true -> names_free c root = true ->
  In line (get_tree_lines self root "" true 0) ->
  Str.has_char c line = false.
Proof.
  intros Hdec Hfree Hin. unfold get_tree_lines in Hin.
  apply in_map_iff in Hin. destruct Hin as [r [<- Hr]].
  pose proof (tree_rows_indent self root [] [] true 0 r eq_refl Hr) as Hshape.
  destruct (decoration_parts c Hdec) as [_ [_ [H3 [H4 H5]]]].
  unfold well_indented in Hshape.
  destruct (row_entry r) as [e|] eqn:Hre.
  - destruct Hshape as [bars [conn [_ [Hconn [-> _]]]]].
    assert (He : Str.has_char c (name e) = false).
    { apply (encountered_names_free c self root Hfree [] 0 (row_path r, e)).
      assert (Hh : In (row_path r, e)
                      (hits_of_rows (tree_rows self root [] "" true 0))).
      { unfold hits_of_rows. apply in_flat_map. exists r.
        split; [assumption|]. rewrite Hre. now left. }
      eapply Permutation_in in Hh; [|apply tree_rows_hits_perm].
      now apply filter_In in Hh. }
    rewrite !has_char_app, indent_free, He by assumption.
    now destruct Hconn as [-> | ->]; rewrite ?H3, ?H4.
  - destruct Hshape as [bars [_ ->]].
    now rewrite has_char_app, indent_free, H5.
Qed.

(** ** Splitting the text back into its lines *)

Lemma split_free (c : ascii) (s : string) :
  Str.has_char c s = false -> split c s = [s].
Proof.
  induction s as [|d s IH]; [reflexivity|].
  intros H. apply has_char_false_cons in H. destruct H as [Hd Hs].
  cbn [split]. rewrite Ascii.eqb_sym, Hd, (IH Hs). reflexivity.
Qed.

Lemma split_app_sep (c : ascii) (s tail : string) :
  Str.has_char c s = false ->
  split c (s +++ String c tail) = s :: split c tail.
Proof.
  induction s as [|d s IH]; intros H.
  - cbn [String.append split]. now rewrite Ascii.eqb_refl.
  - apply has_char_false_cons in H. destruct H as [Hd Hs].
    cbn [String.append split]. rewrite Ascii.eqb_sym, Hd, (IH Hs).
    reflexivity.
Qed.

(** [sep.join(lines).split(sep)] gives the lines back when none of them
    holds the separator. *)
Lemma split_join (c : ascii) (lines : list string) :
  lines <> [] ->
  Forall (fun line => Str.has_char c line = false) lines ->
  split c (Str.join (String c EmptyString) lines) = lines.
Proof.
  unfold Str.join. intros Hne H. induction H as [|x l Hx Hl IH]; [congruence|].
  destruct l as [|y l].
  - cbn [String.concat]. now apply split_free.
  - cbn [String.concat]. cbn [String.append].
    rewrite split_app_sep by assumption.
    f_equal. apply IH. discriminate.
Qed.

Lemma join_snoc_empty (sep : string) (lines : list string) :
  lines <> [] ->
  Str.join sep (lines ++ [EmptyString]) = Str.join sep lines +++ sep.
Proof.
  intros H. rewrite join_app by (assumption || discriminate).
  f_equal. change (Str.join sep [EmptyString]) with EmptyString.
  induction sep as [|d sep IH]; cbn [String.append];
    [reflexivity | now rewrite IH].
Qed.

Lemma tag_lines_In (lines : list string) :
  forall k i t,
    In (i, t) (tag_lines k lines)
    <-> exists j line,
          nth_error lines j = Some line /\ i = k + j
          /\ line_tag line = Some t.
Proof.
  induction lines as [|l lines IH]; intros k i t; cbn [tag_lines].
  - split; [intros [] | intros [[|j] [line [H _]]]; discriminate].
  - rewrite in_app_iff, IH. split.
    + intros [H | [j [line [Hn [-> Ht]]]]].
      * destruct (line_tag l) as [t'|] eqn:E; [|destruct H].
        destruct H as [H | []]. injection H as <- <-.
        exists 0, l. repeat split; [lia | assumption].
      * exists (S j), line. repeat split; [assumption | lia | assumption].
    + intros [[|j] [line [Hn [-> Ht]]]].
      * injection Hn as ->. left. rewrite Ht. left. f_equal. lia.
      * right. exists j, line. repeat split; [assumption | lia | assumption].
Qed.

(** ** The line of the root *)

Lemma rstrip_visible_end (s : string) (c : ascii) :
  is_space c = false ->
  rstrip (s +++ String c EmptyString) = s +++ String c EmptyString.
Proof.
  intros Hc. induction s as [|d s IH]; cbn [String.append rstrip].
  - now rewrite Hc.
  - rewrite IH. now destruct s.
Qed.

Lemma lstrip_visible_end (s : string) (c : ascii) :
  is_space c = false ->
  exists t, lstrip (s +++ String c EmptyString) = t +++ String c EmptyString.
Proof.
  intros Hc. induction s as [|d s [t IH]]; cbn [String.append lstrip].
  - rewrite Hc. now exists EmptyString.
  - destruct (is_space d); [now exists t | now exists (String d s)].
Qed.

Lemma endswith_app (s suffix : string) : endswith (s +++ suffix) suffix = true.
Proof.
  induction s as [|d s IH]; cbn [String.append].
  - destruct suffix; cbn [endswith]; now rewrite String.eqb_refl.
  - cbn [endswith]. rewrite IH. apply orb_true_r.
Qed.

Lemma root_line_tag (root_name : string) :
  line_tag (root_name +++ "/") = Some directory.
Proof.
  unfold line_tag.
  assert (H1 : Str.contains "/" (root_name +++ "/") = true).
  { apply contains_spec. now exists root_name, EmptyString. }
  assert (H2 : endswith (strip (root_name +++ "/")) "/" = true).
  { unfold strip.
    destruct (lstrip_visible_end root_name "/" eq_refl) as [t ->].
    rewrite rstrip_visible_end by reflexivity. apply endswith_app. }
  now rewrite H1, H2.
Qed.

Lemma join_free (c : ascii) (sep : string) (parts : list string) :
  Str.has_char c sep = false ->
  (forall p, In p parts -> Str.has_char c p = false) ->
  Str.has_char c (Str.join sep parts) = false.
Proof.
  unfold Str.join. intros Hsep H.
  induction parts as [|x l IH]; [reflexivity|].
  destruct l as [|y l]; [apply H; now left|].
  change (String.concat sep (x :: y :: l))
    with (x +++ sep +++ String.concat sep (y :: l)).
  rewrite !has_char_app, Hsep, (H x) by now left.
  apply IH. intros; apply H; now right.
Qed.

(** X13. In the tree display the line of the root is tagged as a directory
    and no other line is: a line is a directory for the display when it
    holds a slash and ends in one, and the lines under the root carry
    none.  This holds whenever no name holds a slash or a line feed. *)
Theorem only_root_tagged_directory (self : TreeVisualizer) (root_path : Path)
    (root : entry) (i : nat) :
  names_free "/" root = true ->
  names_free line_feed root = true ->
  (forall c, In c root_path -> Str.has_char line_feed c = false) ->
  (In (i, directory) (display_tags (visualize self root_path root))
   <-> i = 1).
Proof.
  intros Hslash Hlf Hroot.
  unfold display_tags, visualize. cbv zeta.
  set (lines := visualize_lines self root_path root).
  assert (Hne : lines <> []) by discriminate.
  assert (Hfree : Forall (fun line => Str.has_char line_feed line = false)
                         (lines ++ [EmptyString])).
  { apply Forall_app. split; [|now repeat constructor].
    apply Forall_forall. intros line [<- | Hin].
    - rewrite has_char_app, orb_false_r.
      destruct (String.eqb (PathOps.name root_path) "").
      + unfold PathOps.str. rewrite has_char_app.
        now rewrite join_free.
      + unfold PathOps.name.
        destruct root_path as [|c0 root_path]; [reflexivity|].
        apply Hroot. set (l := c0 :: root_path).
        assert (l <> []) by discriminate.
        destruct (exists_last H) as [pre [z ->]].
        rewrite last_last. apply in_or_app. right. now left.
    - now apply (tree_lines_free line_feed self root line). }
  replace (Str.join newline lines +++ newline)
    with (Str.join (String line_feed EmptyString) (lines ++ [EmptyString]))
    by (now rewrite join_snoc_empty).
  rewrite split_join by (assumption || now destruct lines).
  rewrite tag_lines_In. split.
  - intros [[|j] [line [Hn [-> Ht]]]]; [reflexivity|]. exfalso.
    unfold lines, visualize_lines in Hn. cbn [app nth_error] in Hn.
    apply nth_error_In in Hn. apply in_app_iff in Hn.
    destruct Hn as [Hn | [<- | []]]; [|discriminate Ht].
    pose proof (tree_lines_free "/" self root line eq_refl Hslash Hn) as H.
    apply contains_char in H. unfold line_tag in Ht.
    rewrite H in Ht. cbn [andb] in Ht.
    repeat match type of Ht with
           | (if ?b then _ else _) = _ => destruct b; try discriminate Ht
           end.
  - intros ->. eexists 0, _. split; [reflexivity|]. split; [reflexivity|].
    apply root_line_tag.
Qed.

Lemma only_root_tagged_directory_witness :
  display_tags (visualize default_visualizer ["proj"] proj)
  = [(1, directory); (3, python); (4, markdown)]
  /\ ~ In (2, directory)
          (display_tags (visualize default_visualizer ["proj"] proj)).
Proof.
  split; [reflexivity|].
  intros H.
  apply (only_root_tagged_directory default_visualizer ["proj"] proj 2) in H.
  - discriminate.
  - reflexivity.
  - reflexivity.
  - intros c [<- | []]. reflexivity.
Defined.

(** ** Patterns without a star *)

Lemma lower_length (s : string) :
  String.length (Str.lower s) = String.length s.
Proof.
  induction s as [|c s IH]; cbn [Str.lower String.length];
    [reflexivity | now rewrite IH].
Qed.

Lemma glob_no_star_length (p : string) :
  forall s,
    Str.has_char "*" p = false -> glob p s = true ->
    String.length s = String.length p.
Proof.
  induction p as [|c p IH]; intros s Hp Hg.
  - destruct s; [reflexivity | discriminate].
  - apply has_char_false_cons in Hp. destruct Hp as [Hc Hp].
    cbn [glob] in Hg. rewrite Ascii.eqb_sym, Hc in Hg.
    destruct s as [|d s]; [discriminate|].
    apply andb_true_iff in Hg. destruct Hg as [_ Hg].
    cbn [String.length]. f_equal. now apply IH.
Qed.

Lemma lower_ends_line_feed (s : string) :
  forall t', Str.lower s = t' +++ newline ->
             exists t, s = t +++ newline.
Proof.
  induction s as [|c s IH]; intros t' H; cbn [Str.lower] in H.
  - destruct t'; discriminate.
  - destruct t' as [|d t']; cbn [String.append] in H.
    + injection H as Hc Hs. destruct s; [|discriminate].
      exists EmptyString. cbn [String.append]. f_equal.
      pose proof (lower_char_lf c) as E. fold line_feed in Hc.
      rewrite Hc, Ascii.eqb_refl in E. symmetry in E.
      apply Ascii.eqb_eq in E. now subst.
    + injection H as _ Hs. destruct (IH t' Hs) as [t ->].
      now exists (String c t).
Qed.

(** A compiled pattern without a star takes as many characters as it has,
    and [$] lets one line feed follow. *)
Lemma match_no_star_length (p : string) :
  forall (b : bool) (s : string),
    Str.has_char "*" p = false ->
    Re.match_here (pieces_of p ++ [Re.One Re.Eol]) b s = true ->
    String.length s = String.length p
    \/ (String.length s = S (String.length p)
        /\ exists t, s = t +++ newline).
Proof.
  induction p as [|c p IH]; intros b s Hp Hm.
  - cbn in Hm. destruct s as [|d [|d' s]]; cbn in Hm; try discriminate.
    + now left.
    + right. split; [reflexivity|]. exists EmptyString.
      rewrite andb_true_r in Hm. unfold Re.is_lf in Hm.
      apply Ascii.eqb_eq in Hm. now subst.
  - apply has_char_false_cons in Hp. destruct Hp as [Hc Hp].
    cbn [pieces_of app] in Hm. unfold piece_of in Hm.
    rewrite (Ascii.eqb_sym c "*"), Hc in Hm.
    assert (Hs : exists d s', s = String d s'
                 /\ Re.match_here (pieces_of p ++ [Re.One Re.Eol]) false s'
                    = true).
    { destruct (Ascii.eqb c "."), (Ascii.eqb c "?");
        cbn [Re.match_here] in Hm;
        (destruct s as [|d s']; [discriminate|]);
        apply andb_true_iff in Hm; destruct Hm as [_ Hm];
        now exists d, s'. }
    destruct Hs as [d [s' [-> Hm']]].
    destruct (IH false s' Hp Hm') as [Hlen | [Hlen [t ->]]].
    + left. cbn [String.length]. now rewrite Hlen.
    + right. cbn [String.length]. split; [now rewrite Hlen|].
      now exists (String d t).
Qed.

(** X14. For patterns and names of ASCII characters: a wildcard pattern
    with question marks and no star, and no other special character of
    regular expressions, matches only names of its own length, each [?]
    standing for exactly one character, or names one character longer that
    end in a line feed. *)
Theorem question_marks_fix_length (pattern item_name : string) :
  is_ascii pattern = true ->
  is_ascii item_name = true ->
  Str.has_char "*" pattern = false ->
  Str.has_char "?" pattern = true ->
  meta_free pattern = true ->
  exists m,
    compile_pattern pattern = Some m
    /\ (name_matches m item_name = true ->
        String.length item_name = String.length pattern
        \/ (String.length item_name = S (String.length pattern)
            /\ exists t, item_name = t +++ newline)).
Proof.
  intros _ _ Hstar Hq Hmeta. unfold compile_pattern.
  rewrite Hstar, Hq. cbn [orb].
  rewrite compile_regex_source by now rewrite lower_meta_free.
  eexists. split; [reflexivity|].
  cbn [name_matches]. rewrite search_anchored. intros Hm.
  apply match_no_star_length in Hm.
  - rewrite !lower_length in Hm.
    destruct Hm as [Hm | [Hm [t' Ht]]]; [now left|].
    right. split; [assumption|]. now apply (lower_ends_line_feed _ t').
  - destruct (lower_has_wildcard pattern) as [-> _]. assumption.
Qed.

Lemma question_marks_fix_length_witness :
  exists m,
    compile_pattern "a?c.txt" = Some m
    /\ name_matches m "ABC.txt" = true
    /\ name_matches m "ac.txt" = false.
Proof.
  destruct (question_marks_fix_length "a?c.txt" "ABC.txt")
    as [m [Hm _]]; try reflexivity.
  exists m. split; [exact Hm|].
  vm_compute in Hm. injection Hm as <-. split; reflexivity.
Defined.

(** ** Under an excluded directory *)

Lemma listed_loop_ancestors (self : TreeVisualizer)
    (rec : list string -> entry -> Z -> list hit) here depth items :
  Forall (fun n => should_exclude self n = false) here ->
  (forall x, In x items -> forall p d h,
      Forall (fun n => should_exclude self n = false) p ->
      In h (rec p x d) ->
      exists pre, fst h = pre ++ [name (snd h)]
                  /\ Forall (fun n => should_exclude self n = false) pre) ->
  forall h, In h (listed_loop self rec here depth items) ->
    exists pre, fst h = pre ++ [name (snd h)]
                /\ Forall (fun n => should_exclude self n = false) pre.
Proof.
  intros Hhere. induction items as [|x l IH]; intros H h; cbn [listed_loop];
    [intros []|].
  intros [<- | Hh]; [now exists here|].
  apply in_app_iff in Hh. destruct Hh as [Hh | Hh].
  - destruct (should_exclude self (name x)) eqn:E; [destruct Hh|].
    cbn [negb andb] in Hh. destruct (is_dir x); [|destruct Hh].
    eapply H; [now left | | eassumption].
    apply Forall_app. split; [assumption | now repeat constructor].
  - revert Hh. apply IH. intros; eapply H; [right|..]; eassumption.
Qed.

Lemma encountered_ancestors (self : TreeVisualizer) (e : entry) :
  forall here depth h,
    Forall (fun n => should_exclude self n = false) here ->
    In h (encountered self here e depth) ->
    exists pre, fst h = pre ++ [name (snd h)]
                /\ Forall (fun n => should_exclude self n = false) pre.
Proof.
  induction e as [n size t | n t | n t | n t items IH]
    using entry_nested_ind; intros here depth h Hhere;
    rewrite encountered_eq; cbn [iterdir];
    destruct (too_deep self depth); try (intros []).
  rewrite Forall_forall in IH.
  apply listed_loop_ancestors; [assumption|].
  intros x Hx p d h' Hp. now apply IH.
Qed.

(** X15. Exclusion prunes: every component of the path of an entry of the
    tree or of a hit of the search passes the filter, so nothing under an
    excluded directory is rendered or reported, whatever its own name. *)
Theorem nothing_under_excluded (self : TreeVisualizer) (root : entry)
    (m : matcher) (h : hit) :
  In h (tree_entries self root) \/ In h (search_hits self m [] root 0) ->
  Forall (fun n => should_exclude self n = false) (fst h).
Proof.
  intros Hh.
  assert (H : In h (encountered self [] root 0) /\ kept self h = true).
  { destruct Hh as [Hh | Hh].
    - apply tree_entries_encountered in Hh. destruct Hh as [Hin Hs].
      unfold shown in Hs. apply andb_true_iff in Hs. tauto.
    - apply search_hits_encountered in Hh. destruct Hh as [Hin Hs].
      unfold wanted in Hs. apply andb_true_iff in Hs. tauto. }
  destruct H as [Hin Hk].
  apply encountered_ancestors in Hin; [|constructor].
  destruct Hin as [pre [-> Hpre]].
  apply Forall_app. split; [assumption|].
  repeat constructor. unfold kept in Hk. now apply negb_true_iff in Hk.
Qed.

Lemma nothing_under_excluded_witness :
  Forall (fun n => should_exclude default_visualizer n = false)
         ["src"; "main.py"].
Proof.
  apply (nothing_under_excluded default_visualizer proj (Literal "main")
           (["src"; "main.py"], File "main.py" 0 None)).
  right. left. reflexivity.
Defined.
